(** * Lamport clock and last-writer-wins store of the replicated key-value node

    A shallow embedding of [src/node.py]: the [LamportClock], the
    [KeyValueStore], the [Node] handlers, the per-peer delivery loop and
    the POST and GET dispatch of [RequestHandler].

    Conventions of the embedding.
    - Python integers are [Z]; dictionaries are [gmap]s.
    - Every method is a function from the object's state to the new state
      and the returned value.  The request loop is [HTTPServer], which
      serves one request at a time, so the handlers run one after the
      other and the [threading.Lock]s never contend; they are left out.
    - [print] calls of the handlers are left out; the delivery loop keeps
      them, as events of its trace.
    - JSON numbers are integers here (no floating point). *)

From Stdlib Require Import ZArith Lia.
From stdpp Require Import gmap strings list fin_maps.

Local Open Scope Z_scope.

(** ** class LamportClock *)

Module LamportClock.

Record t := Clock { time : Z }.

(** [__init__]: [self.time = 0]. *)
Definition init : t := Clock 0.

(** [self.time += 1; return self.time] *)
Definition increment (self : t) : t * Z :=
  let time' := time self + 1 in
  (Clock time', time').

(** [self.time = max(self.time, received_time) + 1; return self.time] *)
Definition update (self : t) (received_time : Z) : t * Z :=
  let time' := Z.max (time self) received_time + 1 in
  (Clock time', time').

(** [return self.time] *)
Definition get_time (self : t) : t * Z := (self, time self).

(** A call made on a clock by one of its two mutating methods. *)
Inductive call :=
| Increment
| Update (received_time : Z).

Definition run_call (self : t) (c : call) : t * Z :=
  match c with
  | Increment => increment self
  | Update received_time => update self received_time
  end.

(** The calls of a sequence, made one after the other; the values they
    return, in order. *)
Fixpoint run_calls (self : t) (cs : list call) : t * list Z :=
  match cs with
  | [] => (self, [])
  | c :: cs' =>
      let '(self', r) := run_call self c in
      let '(self'', rs) := run_calls self' cs' in
      (self'', r :: rs)
  end.

(** The [received_time] argument of a call, when it has one. *)
Definition received (c : call) : option Z :=
  match c with
  | Increment => None
  | Update received_time => Some received_time
  end.

End LamportClock.

(** ** class KeyValueStore *)

Module KeyValueStore.

Section defs.
Context {K : Type} `{Countable K} {V N : Type}.

(** [{'value': val, 'timestamp': ts, 'node': node_id}] *)
Record entry := Entry { value : V; timestamp : Z; node : N }.

(** [__init__]: [self.store = {}]. *)
Definition init : gmap K entry := ∅.

(** [put]: the test [key not in self.store or timestamp >
    self.store[key]['timestamp']] reads the stored entry only when
    the key is present ([or] is short-circuit). *)
Definition put (store : gmap K entry)
    (key : K) (value : V) (timestamp_ : Z) (node_id : N)
    : gmap K entry * bool :=
  match store !! key with
  | None => (<[key := Entry value timestamp_ node_id]> store, true)
  | Some existing =>
      if timestamp_ >? timestamp existing
      then (<[key := Entry value timestamp_ node_id]> store, true)
      else (store, false)
  end.

(** [return self.store.get(key)] *)
Definition get (store : gmap K entry) (key : K)
    : gmap K entry * option entry :=
  (store, store !! key).

(** [return dict(self.store)] *)
Definition get_all (store : gmap K entry) : gmap K entry * gmap K entry :=
  (store, store).

(** A write as it travels between nodes. *)
Record write := Write
  { w_key : K; w_value : V; w_timestamp : Z; w_origin : N }.

Definition put_write (store : gmap K entry) (w : write) : gmap K entry * bool :=
  put store (w_key w) (w_value w) (w_timestamp w) (w_origin w).

(** The writes of a list applied in order; the final mapping. *)
Definition put_all (store : gmap K entry) (ws : list write) : gmap K entry :=
  foldl (λ s w, (put_write s w).1) store ws.

Definition entry_of (w : write) : entry :=
  Entry (w_value w) (w_timestamp w) (w_origin w).

(** What a key holds after a [put] on it, from what it held before. *)
Definition merge (held : option entry) (new : entry) : option entry :=
  match held with
  | None => Some new
  | Some existing =>
      if timestamp new >? timestamp existing then Some new else Some existing
  end.

(** No two different writes of the list carry the same key with the
    same timestamp. *)
Definition tie_free (ws : list write) : Prop :=
  ∀ w1 w2, w1 ∈ ws → w2 ∈ ws →
    w_key w1 = w_key w2 → w_timestamp w1 = w_timestamp w2 → w1 = w2.

(** The three public operations, as calls with their results. *)
Inductive op :=
| OpPut (key : K) (value : V) (timestamp_ : Z) (node_id : N)
| OpGet (key : K)
| OpGetAll.

Inductive result :=
| RPut (applied : bool)
| RGet (data : option entry)
| RGetAll (data : gmap K entry).

Definition run_op (store : gmap K entry) (o : op) : gmap K entry * result :=
  match o with
  | OpPut key value timestamp_ node_id =>
      let '(store', applied) := put store key value timestamp_ node_id in
      (store', RPut applied)
  | OpGet key =>
      let '(store', data) := get store key in (store', RGet data)
  | OpGetAll =>
      let '(store', data) := get_all store in (store', RGetAll data)
  end.

Definition run_ops (store : gmap K entry) (os : list op) : gmap K entry :=
  foldl (λ s o, (run_op s o).1) store os.

(** The key a call writes to, and the keys the [put]s of a sequence of
    calls write to. *)
Definition op_key (o : op) : option K :=
  match o with
  | OpPut key _ _ _ => Some key
  | OpGet _ | OpGetAll => None
  end.

Definition written_keys (os : list op) : gset K :=
  list_to_set (omap op_key os).

End defs.

Global Arguments entry : clear implicits.
Global Arguments write : clear implicits.
Global Arguments op : clear implicits.
Global Arguments result _ {_ _} _ _.

End KeyValueStore.

(** ** class Node *)

Module Node.

Import KeyValueStore.

Section defs.
Context {K : Type} `{Countable K} {V N : Type}.

Record t := Build
  { node_id : N;
    port : Z;
    peers : list string;
    clock : LamportClock.t;
    store : gmap K (entry V N);
    delay_peer : option string;
    delay_seconds : Z }.

(** [__init__]: a fresh clock, an empty store, no artificial delay. *)
Definition init (node_id : N) (port : Z) (peers : list string) : t :=
  Build node_id port peers LamportClock.init KeyValueStore.init None 0.

Definition set_clock (self : t) (c : LamportClock.t) : t :=
  Build (node_id self) (port self) (peers self) c (store self)
        (delay_peer self) (delay_seconds self).

Definition set_store (self : t) (s : gmap K (entry V N)) : t :=
  Build (node_id self) (port self) (peers self) (clock self) s
        (delay_peer self) (delay_seconds self).

(** The dictionaries the handlers return. *)
Inductive response :=
| PutResponse (status : string) (timestamp : Z) (node : N)
| GetResponse (status : string) (key : K) (value : V) (timestamp : Z) (node : N)
| NotFoundResponse (status : string) (key : K)
| ReplicateResponse (status : string) (applied : bool).

(** A delivery thread started by [_replicate_to_peers]: the arguments
    of its [_replicate_to_peer] target. *)
Record delivery := Delivery
  { d_peer_url : string; d_key : K; d_value : V; d_timestamp : Z; d_delay : Z }.

(** [_replicate_to_peers]: one thread per peer; the peer named by
    [delay_peer] (when that is set and not empty) gets [delay_seconds]. *)
Definition _replicate_to_peers (self : t) (key : K) (value : V) (timestamp : Z)
    : list delivery :=
  map (λ peer_url,
         let delay :=
           match delay_peer self with
           | Some p =>
               if negb (String.eqb p "") && String.eqb peer_url p
               then delay_seconds self else 0
           | None => 0
           end in
         Delivery peer_url key value timestamp delay)
      (peers self).

(** [handle_put]: tick the clock, write locally, start the deliveries.
    The result of [self.store.put] is dropped, as in the source. *)
Definition handle_put (self : t) (key : K) (value : V)
    : t * response * list delivery :=
  let '(clock', timestamp) := LamportClock.increment (clock self) in
  let self := set_clock self clock' in
  let '(store', _) := put (store self) key value timestamp (node_id self) in
  let self := set_store self store' in
  let threads := _replicate_to_peers self key value timestamp in
  (self, PutResponse "ok" timestamp (node_id self), threads).

(** [handle_get]: [if data:] holds for every stored entry (a dictionary
    of three items is never empty). *)
Definition handle_get (self : t) (key : K) : t * response :=
  let '(store', data) := get (store self) key in
  let self := set_store self store' in
  match data with
  | Some d => (self, GetResponse "ok" key (value d) (KeyValueStore.timestamp d) (node d))
  | None => (self, NotFoundResponse "not_found" key)
  end.

(** [handle_replicate]: Lamport receive rule, then the same [put]. *)
Definition handle_replicate (self : t)
    (key : K) (value : V) (timestamp : Z) (source_node : N) : t * response :=
  let '(clock', local_time) := LamportClock.update (clock self) timestamp in
  let self := set_clock self clock' in
  let '(store', applied) := put (store self) key value timestamp source_node in
  let self := set_store self store' in
  (self, ReplicateResponse "ok" applied).

(** The two state-changing events a node processes, one at a time. *)
Inductive event :=
| LocalWrite (key : K) (value : V)
| InboundReplication (key : K) (value : V) (timestamp : Z) (source_node : N).

Definition step (self : t) (e : event) : t :=
  match e with
  | LocalWrite key value => (handle_put self key value).1.1
  | InboundReplication key value timestamp source_node =>
      (handle_replicate self key value timestamp source_node).1
  end.

Definition run (self : t) (es : list event) : t := foldl step self es.

(** A node as the process starts it: [main] may set the artificial
    delay after [__init__]; the clock shows 0 and the store is empty. *)
Definition initial (self : t) : Prop :=
  clock self = LamportClock.init ∧ store self = KeyValueStore.init.

(** No stored entry is ahead of the node's clock. *)
Definition clock_dominates (self : t) : Prop :=
  ∀ k e, store self !! k = Some e →
         KeyValueStore.timestamp e ≤ LamportClock.time (clock self).

(** *** [_replicate_to_peer]: one delivery sequence

    The network is a parameter: [attempt_ok attempt] tells whether
    the [urlopen] of that attempt (and the decoding of its answer)
    returns; otherwise an exception reaches the [except] branch. *)

Record payload := Payload
  { p_key : K; p_value : V; p_timestamp : Z; p_source_node : N }.

Inductive message :=
| MsgDelaying (peer_url : string) (delay : Z)
| MsgReplicated (peer_url : string)
| MsgFailed (peer_url : string) (attempt_number : Z)
| MsgGaveUp (peer_url : string) (max_retries : Z).

Inductive effect :=
| Sleep (seconds : Z)
| UrlOpen (url : string) (data : payload) (timeout : Z)
| Print (m : message).

Definition max_retries : nat := 3.

(** [for attempt in range(...)]: the effects of the remaining
    iterations, and whether one of them executed [return]. *)
Fixpoint attempts (attempt_ok : nat → bool) (peer_url : string) (data : payload)
    (range : list nat) : list effect * bool :=
  match range with
  | [] => ([], false)
  | attempt :: range' =>
      let request := UrlOpen (peer_url +:+ "/replicate") data 5 in
      if attempt_ok attempt
      then ([request; Print (MsgReplicated peer_url)], true)
      else
        let backoff :=
          if (Z.of_nat attempt <? Z.of_nat max_retries - 1)
          then [Sleep (2 ^ Z.of_nat attempt)] else [] in
        let '(rest, returned) := attempts attempt_ok peer_url data range' in
        (request :: Print (MsgFailed peer_url (Z.of_nat attempt + 1))
           :: backoff ++ rest, returned)
  end.

Definition _replicate_to_peer (self : t) (attempt_ok : nat → bool)
    (peer_url : string) (key : K) (value : V) (timestamp : Z) (delay : Z)
    : list effect :=
  let pre :=
    if delay >? 0
    then [Print (MsgDelaying peer_url delay); Sleep delay] else [] in
  let data := Payload key value timestamp (node_id self) in
  let '(loop, returned) :=
    attempts attempt_ok peer_url data (seq 0 max_retries) in
  pre ++ loop ++
    (if returned then []
     else [Print (MsgGaveUp peer_url (Z.of_nat max_retries))]).

(** Projections of a trace. *)
Definition sleeps (tr : list effect) : list Z :=
  omap (λ e, match e with Sleep s => Some s | _ => None end) tr.

Definition requests (tr : list effect) : list (string * payload) :=
  omap (λ e, match e with UrlOpen u d _ => Some (u, d) | _ => None end) tr.

(** The waits between the delivery attempts: the [Sleep]s after the
    first [UrlOpen] (the artificial delay comes before it). *)
Fixpoint backoffs (tr : list effect) : list Z :=
  match tr with
  | [] => []
  | UrlOpen _ _ _ :: tr' => sleeps tr'
  | _ :: tr' => backoffs tr'
  end.

(** [handle_status]: the dictionary [{node_id, lamport_time, store,
    peers}], read through [get_all] and [get_time]. *)
Record status_report := StatusReport
  { r_node_id : N;
    r_lamport_time : Z;
    r_store : gmap K (entry V N);
    r_peers : list string }.

Definition handle_status (self : t) : t * status_report :=
  let '(store', all_data) := get_all (store self) in
  let self := set_store self store' in
  let '(clock', lamport_time) := LamportClock.get_time (clock self) in
  let self := set_clock self clock' in
  (self, StatusReport (node_id self) lamport_time all_data (peers self)).

(** The key an event writes to. *)
Definition event_key (e : event) : K :=
  match e with
  | LocalWrite key _ => key
  | InboundReplication key _ _ _ => key
  end.

(** [sum] of a list of waits. *)
Definition total (waits : list Z) : Z := foldr Z.add 0 waits.

End defs.

Global Arguments status_report : clear implicits.
Global Arguments status_report _ {_ _} _ _.
Global Arguments t : clear implicits.
Global Arguments t _ {_ _} _ _.
Global Arguments response : clear implicits.
Global Arguments delivery : clear implicits.
Global Arguments event : clear implicits.
Global Arguments payload : clear implicits.
Global Arguments effect : clear implicits.

End Node.

(** ** class RequestHandler: the POST dispatch *)

Module RequestHandler.

(** What [json.loads] returns. *)
#[local] Unset Elimination Schemes.
Inductive json :=
| JNull
| JBool (b : bool)
| JInt (z : Z)
| JStr (s : string)
| JArr (items : list json)
| JObj (items : list (string * json)).
#[local] Set Elimination Schemes.

(** Python truth value of a decoded JSON value. *)
Definition truthy (j : json) : bool :=
  match j with
  | JNull => false
  | JBool b => b
  | JInt z => negb (z =? 0)
  | JStr s => negb (String.eqb s "")
  | JArr items => match items with [] => false | _ => true end
  | JObj items => match items with [] => false | _ => true end
  end.

(** [x is not None] *)
Definition is_not_None (j : json) : bool :=
  match j with JNull => false | _ => true end.

(** Items of a decoded object; of a repeated name the last one counts. *)
Fixpoint dict_lookup (name : string) (items : list (string * json)) : option json :=
  match items with
  | [] => None
  | (name', v) :: items' =>
      match dict_lookup name items' with
      | Some v' => Some v'
      | None => if String.eqb name name' then Some v else None
      end
  end.

(** [data.get(name)]: [None] when the name is absent. *)
Definition dict_get (items : list (string * json)) (name : string) : json :=
  default JNull (dict_lookup name items).

(** Keys of the store's dictionary.  [True] and [1] are one key
    ([True == 1] and they hash alike); lists and dictionaries are not
    hashable. *)
Inductive pykey :=
| KNone
| KInt (z : Z)
| KStr (s : string).

Definition hashable (j : json) : option pykey :=
  match j with
  | JNull => Some KNone
  | JBool b => Some (KInt (if b then 1 else 0))
  | JInt z => Some (KInt z)
  | JStr s => Some (KStr s)
  | JArr _ | JObj _ => None
  end.

(** The integer a value stands for in [max(self.time, received_time)]
    and [timestamp > ...]; [bool] is a subclass of [int].  Strings,
    lists, dictionaries and [None] do not compare with an integer. *)
Definition numeric (j : json) : option Z :=
  match j with
  | JInt z => Some z
  | JBool b => Some (if b then 1 else 0)
  | _ => None
  end.

Global Instance pykey_eq_dec : EqDecision pykey.
Proof. solve_decision. Defined.

Definition pykey_encode (k : pykey) : unit + (Z + string) :=
  match k with
  | KNone => inl ()
  | KInt z => inr (inl z)
  | KStr s => inr (inr s)
  end.

Definition pykey_decode (x : unit + (Z + string)) : pykey :=
  match x with
  | inl _ => KNone
  | inr (inl z) => KInt z
  | inr (inr s) => KStr s
  end.

Global Instance pykey_countable : Countable pykey.
Proof.
  refine (inj_countable' pykey_encode pykey_decode _).
  intros []; reflexivity.
Defined.

(** The node a server holds: any hashable key, any JSON value. *)
Abbreviation node := (Node.t pykey json json).

(** The body of the request.  [int(...Content-Length...)] and
    [rfile.read(...).decode('utf-8')] stand before the [try]: when one
    of them raises, the exception leaves [do_POST] ([Unreadable]).
    Otherwise the text is empty ([NoBody], read as [{}]), is refused by
    [json.loads] ([InvalidJson]) or decodes to a value ([Json]). *)
Inductive request_body :=
| Unreadable (exception : string)
| NoBody
| InvalidJson
| Json (data : json).

Inductive reply :=
| Error (error : string)
| Result (r : Node.response pykey json json).

(** What the client gets: a response written by [_send_response], or
    an exception that leaves [do_POST]. *)
Inductive outcome :=
| Sent (status_code : Z) (body : reply)
| Raised (exception : string).

(** [do_POST].  A body that cannot be read raises before anything is
    looked at; a body that is not an object has no [get]; a timestamp
    that is not a number fails in [clock.update], before any change; a
    key that is not hashable fails in [store.put], after the clock has
    moved. *)
Definition do_POST (self : node) (path : string) (body : request_body)
    : node * outcome :=
  match (match body with
         | Unreadable exception => inl exception
         | NoBody => inr (Some (JObj []))
         | InvalidJson => inr None
         | Json data => inr (Some data)
         end) with
  | inl exception => (self, Raised exception)
  | inr None => (self, Sent 400 (Error "Invalid JSON"))
  | inr (Some data) =>
      if String.eqb path "/put" then
        match data with
        | JObj items =>
            let key := dict_get items "key" in
            let value := dict_get items "value" in
            if negb (truthy key) || negb (is_not_None value)
            then (self, Sent 400 (Error "Missing key or value"))
            else
              match hashable key with
              | Some k =>
                  let '(self', result, _) := Node.handle_put self k value in
                  (self', Sent 200 (Result result))
              | None =>
                  let '(clock', _) := LamportClock.increment (Node.clock self) in
                  (Node.set_clock self clock', Raised "TypeError")
              end
        | _ => (self, Raised "AttributeError")
        end
      else if String.eqb path "/replicate" then
        match data with
        | JObj items =>
            let key := dict_get items "key" in
            let value := dict_get items "value" in
            let timestamp := dict_get items "timestamp" in
            let source_node := dict_get items "source_node" in
            if negb (forallb id
                       [truthy key; is_not_None value;
                        truthy timestamp; truthy source_node])
            then (self, Sent 400 (Error "Missing required fields"))
            else
              match numeric timestamp with
              | None => (self, Raised "TypeError")
              | Some ts =>
                  match hashable key with
                  | Some k =>
                      let '(self', result) :=
                        Node.handle_replicate self k value ts source_node in
                      (self', Sent 200 (Result result))
                  | None =>
                      let '(clock', _) :=
                        LamportClock.update (Node.clock self) ts in
                      (Node.set_clock self clock', Raised "TypeError")
                  end
              end
        | _ => (self, Raised "AttributeError")
        end
      else (self, Sent 404 (Error "Not found"))
  end.

(** POST requests served one after the other, as [HTTPServer] does;
    a request that raises leaves the state it reached. *)
Definition serve (self : node) (requests : list (string * request_body)) : node :=
  foldl (λ s r, (do_POST s r.1 r.2).1) self requests.

(** *** The GET dispatch

    [path] and [params] are [urlparse(self.path).path] and
    [parse_qs(...)] of the query: a dictionary from names to the lists
    of their values. *)
Inductive get_reply :=
| GetError (error : string)
| GetResult (r : Node.response pykey json json)
| StatusResult (r : Node.status_report pykey json json).

Inductive get_outcome :=
| GetSent (status_code : Z) (body : get_reply)
| GetRaised (exception : string).

(** [do_GET].  [params.get('key', [None])[0]] is [None] without a
    [key] parameter; [not key] also holds for an empty string. *)
Definition do_GET (self : node) (path : string)
    (params : gmap string (list string)) : node * get_outcome :=
  if String.eqb path "/get" then
    match (match params !! "key" with
           | Some values => map Some values
           | None => [None]
           end) with
    | [] => (self, GetRaised "IndexError")
    | key :: _ =>
        match key with
        | None => (self, GetSent 400 (GetError "Missing key parameter"))
        | Some key =>
            if String.eqb key ""
            then (self, GetSent 400 (GetError "Missing key parameter"))
            else
              let '(self', result) := Node.handle_get self (KStr key) in
              (self', GetSent 200 (GetResult result))
        end
    end
  else if String.eqb path "/status" then
    let '(self', result) := Node.handle_status self in
    (self', GetSent 200 (StatusResult result))
  else (self, GetSent 404 (GetError "Not found")).

Definition get_status_of (o : get_outcome) : option Z :=
  match o with
  | GetSent status_code _ => Some status_code
  | GetRaised _ => None
  end.

(** *** From a sender to its peer

    The key of a stored entry as [json.dumps] writes it and the peer's
    [json.loads] reads it back. *)
Definition key_json (k : pykey) : json :=
  match k with
  | KNone => JNull
  | KInt z => JInt z
  | KStr s => JStr s
  end.

(** The [data] dictionary of [_replicate_to_peer], as the peer decodes
    the body of the request. *)
Definition payload_json (p : Node.payload pykey json json) : json :=
  JObj [("key", key_json (Node.p_key p));
        ("value", Node.p_value p);
        ("timestamp", JInt (Node.p_timestamp p));
        ("source_node", Node.p_source_node p)].

(** The body a delivery thread of [self] sends. *)
Definition delivery_body (self : node) (d : Node.delivery pykey json) : json :=
  payload_json (Node.Payload (Node.d_key d) (Node.d_value d)
                             (Node.d_timestamp d) (Node.node_id self)).

(** A name is a field of the body when the decoded object has it. *)
Definition present (items : list (string * json)) (name : string) : Prop :=
  is_Some (dict_lookup name items).

Definition status_of (o : outcome) : option Z :=
  match o with
  | Sent status_code _ => Some status_code
  | Raised _ => None
  end.

End RequestHandler.

(** * Properties *)

(** ** The clock *)

Section clock_properties.
Import LamportClock.

Lemma run_call_time (c : t) (op : call) :
  time (run_call c op).1 = (run_call c op).2 ∧ time c < (run_call c op).2.
Proof. destruct op; simpl; split; lia. Qed.

Lemma run_call_received (c : t) (received_time : Z) :
  received_time < (run_call c (Update received_time)).2.
Proof. simpl. lia. Qed.

Lemma run_calls_cons (c : t) (op : call) (cs : list call) :
  (run_calls c (op :: cs)).2
  = (run_call c op).2 :: (run_calls (run_call c op).1 cs).2.
Proof.
  simpl. destruct (run_call c op) as [c' r]. simpl.
  destruct (run_calls c' cs) as [c'' rs]. reflexivity.
Qed.

Lemma run_calls_length (cs : list call) (c : t) :
  length (run_calls c cs).2 = length cs.
Proof.
  revert c. induction cs as [|op cs IH]; intros c; [reflexivity|].
  rewrite run_calls_cons. simpl. by rewrite IH.
Qed.

(** Every value a sequence of calls returns exceeds the time the clock
    showed before the sequence. *)
Lemma run_calls_above (cs : list call) (c : t) (j : nat) (rj : Z) :
  (run_calls c cs).2 !! j = Some rj → time c < rj.
Proof.
  revert c j. induction cs as [|op cs IH]; intros c j Hj; [done|].
  rewrite run_calls_cons in Hj.
  destruct (run_call_time c op) as [Ht Hlt].
  destruct j as [|j]; simpl in Hj.
  - injection Hj as <-. exact Hlt.
  - apply IH in Hj. lia.
Qed.

(** C3 (first half): of two calls of one sequence the later returns
    the strictly greater value.  The clock may start at any time and
    the received arguments may be any integers. *)
Lemma returns_increasing (cs : list call) (c : t) (i j : nat) (ri rj : Z) :
  (i < j)%nat →
  (run_calls c cs).2 !! i = Some ri →
  (run_calls c cs).2 !! j = Some rj →
  ri < rj.
Proof.
  revert c i j. induction cs as [|op cs IH]; intros c i j Hij Hi Hj; [done|].
  rewrite run_calls_cons in Hi, Hj.
  destruct (run_call_time c op) as [Ht Hlt].
  destruct j as [|j]; [lia|]. simpl in Hj.
  destruct i as [|i]; simpl in Hi.
  - injection Hi as <-. apply run_calls_above in Hj. lia.
  - eapply IH; [|exact Hi|exact Hj]. lia.
Qed.

Lemma return_above_received (cs : list call) (c : t) (i : nat)
    (received_time ri : Z) :
  cs !! i = Some (Update received_time) →
  (run_calls c cs).2 !! i = Some ri →
  received_time < ri.
Proof.
  revert c i. induction cs as [|op cs IH]; intros c i Hc Hi; [done|].
  rewrite run_calls_cons in Hi.
  destruct i as [|i]; simpl in Hc, Hi.
  - injection Hc as ->. injection Hi as <-. apply run_call_received.
  - eapply IH; eassumption.
Qed.

(** C3: for every sequence of [increment] and [update] calls on one
    clock, each call's return value is strictly greater than the return
    value of every earlier call, and the return value of an
    [update(received_time)] is strictly greater than [received_time].
    Every call of the sequence returns.  Nothing is assumed of the
    clock's starting time or of the sign of the received arguments. *)
Theorem clock_returns_strictly_increase (c : t) (cs : list call) :
  length (run_calls c cs).2 = length cs ∧
  (∀ (i j : nat) (ri rj : Z),
      (i < j)%nat →
      (run_calls c cs).2 !! i = Some ri →
      (run_calls c cs).2 !! j = Some rj →
      ri < rj) ∧
  (∀ (i : nat) (received_time ri : Z),
      cs !! i = Some (Update received_time) →
      (run_calls c cs).2 !! i = Some ri →
      received_time < ri).
Proof.
  split; [apply run_calls_length|]. split.
  - intros i j ri rj. apply returns_increasing.
  - intros i received_time ri. apply return_above_received.
Qed.

Example clock_run :
  (run_calls init [Increment; Update 7; Update 3; Increment; Update 0]).2
  = [1; 8; 9; 10; 11].
Proof. reflexivity. Qed.

End clock_properties.

(** ** The store *)

Section store_properties.
Import KeyValueStore.
Context {K : Type} `{Countable K} {V N : Type}.
Implicit Types (s : gmap K (entry V N)) (k : K) (v : V) (t : Z) (n : N).
Implicit Types (w : write K V N).

Lemma put_absent s k v t n :
  s !! k = None → put s k v t n = (<[k := Entry v t n]> s, true).
Proof. intros Hk. unfold put. by rewrite Hk. Qed.

Lemma put_newer s k v t n (e : entry V N) :
  s !! k = Some e → timestamp e < t →
  put s k v t n = (<[k := Entry v t n]> s, true).
Proof.
  intros Hk Hlt. unfold put. rewrite Hk.
  destruct (Z.gtb_spec t (timestamp e)); [done|lia].
Qed.

Lemma put_stale s k v t n (e : entry V N) :
  s !! k = Some e → t ≤ timestamp e → put s k v t n = (s, false).
Proof.
  intros Hk Hle. unfold put. rewrite Hk.
  destruct (Z.gtb_spec t (timestamp e)); [lia|done].
Qed.

(** The three cases of [put], as a case analysis for proofs. *)
Lemma put_cases s k v t n :
  (s !! k = None ∧ put s k v t n = (<[k := Entry v t n]> s, true)) ∨
  (∃ e, s !! k = Some e ∧ timestamp e < t ∧
        put s k v t n = (<[k := Entry v t n]> s, true)) ∨
  (∃ e, s !! k = Some e ∧ t ≤ timestamp e ∧ put s k v t n = (s, false)).
Proof.
  destruct (s !! k) as [e|] eqn:Hk.
  - destruct (Z.lt_ge_cases (timestamp e) t) as [Hlt|Hge].
    + right; left. exists e. eauto using put_newer.
    + right; right. exists e. eauto using put_stale.
  - left. eauto using put_absent.
Qed.

(** C2: [put] installs the entry and returns [True] exactly when the
    key is absent or the timestamp is strictly greater than the stored
    one; otherwise it returns [False] and leaves the store as it was.
    A timestamp equal to the stored one is rejected and the existing
    entry stays. *)
Theorem put_applies_iff_absent_or_newer s k v t n :
  ((put s k v t n).2 = true ↔
     s !! k = None ∨ ∃ e, s !! k = Some e ∧ timestamp e < t) ∧
  ((put s k v t n).2 = true →
     (put s k v t n).1 = <[k := Entry v t n]> s) ∧
  ((put s k v t n).2 = false → (put s k v t n).1 = s) ∧
  (∀ e, s !! k = Some e → timestamp e = t →
     put s k v t n = (s, false) ∧ (put s k v t n).1 !! k = Some e).
Proof.
  destruct (put_cases s k v t n)
    as [[Hk ->]|[(e & Hk & Hlt & ->)|(e & Hk & Hle & ->)]]; simpl.
  - split; [split; [by left|done]|].
    split; [done|]. split; [done|]. intros e He. congruence.
  - split; [split; [intros _; right; by exists e|done]|].
    split; [done|]. split; [done|]. intros e' He' Ht.
    assert (e' = e) as -> by congruence. lia.
  - split.
    { split; [done|]. intros [Hn|(e' & He' & Hlt)]; [congruence|].
      assert (e' = e) as -> by congruence. lia. }
    split; [done|]. split; [done|]. intros e' He' _. done.
Qed.

(** C4: the same tuple put twice in a row: with the key absent before,
    the first call returns [True]; the second returns [False] and the
    store stays exactly as the first call left it (the second half holds
    whatever the store held before). *)
Theorem put_same_tuple_twice s k v t n :
  s !! k = None →
  (put s k v t n).2 = true ∧
  put (put s k v t n).1 k v t n = ((put s k v t n).1, false).
Proof.
  intros Hk. rewrite (put_absent _ _ _ _ _ Hk). simpl. split; [done|].
  apply (put_stale _ _ _ _ _ (Entry v t n)); [apply lookup_insert_eq|simpl; lia].
Qed.

(** The second [put] of a tuple is rejected in every store. *)
Lemma put_again_rejected s k v t n :
  put (put s k v t n).1 k v t n = ((put s k v t n).1, false).
Proof.
  destruct (put_cases s k v t n)
    as [[Hk ->]|[(e & Hk & Hlt & ->)|(e & Hk & Hle & ->)]]; simpl.
  - apply (put_stale _ _ _ _ _ (Entry v t n)); [apply lookup_insert_eq|simpl; lia].
  - apply (put_stale _ _ _ _ _ (Entry v t n)); [apply lookup_insert_eq|simpl; lia].
  - by apply (put_stale _ _ _ _ _ e).
Qed.

(** C9: right after a [put] that returned [True], [get] of that key
    returns the entry made of exactly the arguments of the [put], and
    the store [get] hands back is the store it was given. *)
Theorem get_after_applied_put s k v t n :
  (put s k v t n).2 = true →
  get (put s k v t n).1 k = ((put s k v t n).1, Some (Entry v t n)) ∧
  ∃ e, (get (put s k v t n).1 k).2 = Some e ∧
       value e = v ∧ timestamp e = t ∧ node e = n.
Proof.
  intros Happlied. unfold get.
  destruct (put_cases s k v t n)
    as [[Hk Hp]|[(e & Hk & Hlt & Hp)|(e & Hk & Hle & Hp)]];
    rewrite Hp in *; simpl in *; try done;
    rewrite lookup_insert_eq; eauto 6.
Qed.

(** [get] and [get_all] hand back the store they were given. *)
Lemma get_pure s k : (get s k).1 = s.
Proof. reflexivity. Qed.

Lemma get_all_pure s : (get_all s).1 = s ∧ (get_all s).2 = s.
Proof. done. Qed.

Lemma put_dom s k v t n : dom (put s k v t n).1 = {[k]} ∪ dom s.
Proof.
  destruct (put_cases s k v t n)
    as [[Hk ->]|[(e & Hk & Hlt & ->)|(e & Hk & Hle & ->)]]; simpl.
  - apply dom_insert_L.
  - apply dom_insert_L.
  - symmetry. apply subseteq_union_1_L, singleton_subseteq_l.
    by apply elem_of_dom_2 with e.
Qed.

Lemma run_op_dom s (o : op K V N) : dom s ⊆ dom (run_op s o).1.
Proof.
  destruct o as [k v t n|k|]; simpl; [|done..].
  pose proof (put_dom s k v t n) as Hd.
  destruct (put s k v t n) as [s' b]. simpl in *.
  rewrite Hd. apply union_subseteq_r.
Qed.

Lemma run_ops_dom (os : list (op K V N)) s : dom s ⊆ dom (run_ops s os).
Proof.
  revert s. induction os as [|o os IH]; intros s; [done|].
  unfold run_ops in *. simpl. etrans; [apply run_op_dom|apply IH].
Qed.

Lemma run_op_dom_exact s (o : op K V N) :
  dom (run_op s o).1 = dom s ∪ written_keys [o].
Proof.
  unfold written_keys. destruct o as [k v t n|k|]; simpl.
  - pose proof (put_dom s k v t n) as Hd.
    destruct (put s k v t n) as [s' b]. simpl in *. rewrite Hd.
    apply set_eq. intros x.
    rewrite !elem_of_union, elem_of_empty. tauto.
  - by rewrite union_empty_r_L.
  - by rewrite union_empty_r_L.
Qed.

Lemma written_keys_cons (o : op K V N) (os : list (op K V N)) :
  written_keys (o :: os) = written_keys [o] ∪ written_keys os.
Proof.
  unfold written_keys. destruct o as [k v t n|k|]; simpl.
  - by rewrite union_empty_r_L.
  - by rewrite union_empty_l_L.
  - by rewrite union_empty_l_L.
Qed.

Lemma run_ops_dom_exact (os : list (op K V N)) s :
  dom (run_ops s os) = dom s ∪ written_keys os.
Proof.
  revert s. induction os as [|o os IH]; intros s.
  - unfold written_keys. simpl. by rewrite union_empty_r_L.
  - rewrite written_keys_cons. unfold run_ops in *. simpl.
    rewrite IH, run_op_dom_exact.
    apply set_eq. intros x. rewrite !elem_of_union. tauto.
Qed.

(** C8: over every sequence of [put], [get] and [get_all] the set of
    keys only grows: after the sequence it is the set of keys at the
    start together with the keys of all the [put]s made, accepted or
    not.  A [put] of an absent key is accepted and creates the entry,
    made of its arguments.  A single operation changes the key set
    only when it is such a [put], which adds that key. *)
Theorem keys_never_removed s (os : list (op K V N)) :
  dom s ⊆ dom (run_ops s os) ∧
  dom (run_ops s os) = dom s ∪ written_keys os ∧
  (∀ k v t n, s !! k = None →
     put s k v t n = (<[k := Entry v t n]> s, true) ∧
     (put s k v t n).1 !! k = Some (Entry v t n) ∧
     k ∈ dom (put s k v t n).1) ∧
  (∀ o, dom (run_op s o).1 = dom s ∨
        ∃ k v t n, o = OpPut k v t n ∧ s !! k = None ∧
                   run_op s o = (<[k := Entry v t n]> s, RPut true) ∧
                   dom (run_op s o).1 = {[k]} ∪ dom s).
Proof.
  split; [apply run_ops_dom|]. split; [apply run_ops_dom_exact|]. split.
  { intros k v t n Hk. rewrite (put_absent _ _ _ _ _ Hk). simpl.
    split; [done|]. split; [apply lookup_insert_eq|].
    rewrite dom_insert_L. apply elem_of_union_l, elem_of_singleton. done. }
  intros [k v t n|k|]; [|by left..].
  destruct (s !! k) as [e|] eqn:Hk.
  - left. simpl. pose proof (put_dom s k v t n) as Hd.
    destruct (put s k v t n) as [s' b]. simpl in *. rewrite Hd.
    apply subseteq_union_1_L, singleton_subseteq_l.
    by apply elem_of_dom_2 with e.
  - right. exists k, v, t, n. simpl.
    rewrite (put_absent _ _ _ _ _ Hk). simpl.
    rewrite dom_insert_L. done.
Qed.

End store_properties.

(** ** Order of delivery *)

Section delivery_order.
Import KeyValueStore.
Context {K : Type} `{Countable K} {V N : Type}.
Implicit Types (s : gmap K (entry V N)) (w : write K V N).
Implicit Types (ws : list (write K V N)).

(** A [put] changes its own key by [merge] and no other key. *)
Lemma put_write_lookup s w (k : K) :
  (put_write s w).1 !! k
  = if decide (w_key w = k) then merge (s !! k) (entry_of w) else s !! k.
Proof.
  unfold put_write, put, merge, entry_of. case_decide as Hk.
  - subst k. destruct (s !! w_key w) as [e|] eqn:He; simpl.
    + destruct (w_timestamp w >? timestamp e); simpl; [|done].
      apply lookup_insert_eq.
    + apply lookup_insert_eq.
  - destruct (s !! w_key w) as [e|]; simpl.
    + destruct (w_timestamp w >? timestamp e); simpl; [|done].
      by apply lookup_insert_ne.
    + by apply lookup_insert_ne.
Qed.

Lemma merge_comm (held : option (entry V N)) (e1 e2 : entry V N) :
  timestamp e1 ≠ timestamp e2 →
  merge (merge held e1) e2 = merge (merge held e2) e1.
Proof.
  intros Hne. destruct held as [e|]; simpl;
    repeat (match goal with
            | |- context [?a >? ?b] => destruct (Z.gtb_spec a b); simpl
            end); try done; lia.
Qed.

(** Two writes that do not tie commute, in every store. *)
Lemma put_write_comm s w1 w2 :
  (w_key w1 = w_key w2 → w_timestamp w1 = w_timestamp w2 → w1 = w2) →
  (put_write (put_write s w1).1 w2).1 = (put_write (put_write s w2).1 w1).1.
Proof.
  intros Htie. apply map_eq. intros k. rewrite !put_write_lookup.
  destruct (decide (w_key w1 = k)) as [H1|H1];
    destruct (decide (w_key w2 = k)) as [H2|H2]; try done.
  destruct (decide (w_timestamp w1 = w_timestamp w2)) as [Ht|Ht].
  - rewrite (Htie (eq_trans H1 (eq_sym H2)) Ht). done.
  - symmetry. by apply merge_comm.
Qed.

Lemma tie_free_cons w ws : tie_free (w :: ws) → tie_free ws.
Proof.
  intros Htf w1 w2 H1 H2. apply Htf; by apply list_elem_of_further.
Qed.

Lemma tie_free_perm ws1 ws2 : ws1 ≡ₚ ws2 → tie_free ws1 → tie_free ws2.
Proof.
  intros Hp Htf w1 w2 H1 H2. apply Htf; by rewrite Hp.
Qed.

Lemma put_all_perm ws1 ws2 :
  ws1 ≡ₚ ws2 → tie_free ws1 → ∀ s, put_all s ws1 = put_all s ws2.
Proof.
  induction 1 as [|w ws1 ws2 Hp IH|w1 w2 ws|ws1 ws2 ws3 Hp1 IH1 Hp2 IH2];
    intros Htf s.
  - done.
  - unfold put_all in *. simpl. apply IH. by eapply tie_free_cons.
  - unfold put_all. simpl. f_equal. apply put_write_comm.
    apply Htf; [apply list_elem_of_here|].
    apply list_elem_of_further, list_elem_of_here.
  - rewrite IH1 by done. apply IH2. by eapply tie_free_perm.
Qed.

(** C1, as the code has it: applied to an empty store in any
    permutation, the writes of a list in which no two different writes
    carry the same key with the same timestamp yield one and the same
    final mapping. *)
Theorem lww_permutation_invariant ws1 ws2 :
  ws1 ≡ₚ ws2 → tie_free ws1 → put_all init ws1 = put_all init ws2.
Proof. intros Hp Htf. by apply put_all_perm. Qed.

End delivery_order.

(** ** The node *)

Section node_properties.
Import KeyValueStore Node.
Context {K : Type} `{Countable K} {V N : Type}.
Implicit Types (self : Node.t K V N) (key : K) (value : V) (es : list (event K V N)).

(** A [put] keeps every timestamp below a bound that covers its own. *)
Lemma put_bounded (s : gmap K (entry V N)) key value (ts : Z) (n : N) (b : Z) :
  (∀ k e, s !! k = Some e → timestamp e ≤ b) →
  ts ≤ b →
  ∀ k e, (put s key value ts n).1 !! k = Some e → timestamp e ≤ b.
Proof.
  intros Hs Hts k e.
  change (put s key value ts n) with (put_write s (Write key value ts n)).
  rewrite put_write_lookup. simpl. case_decide as Hk; [|apply Hs].
  unfold merge, entry_of. simpl.
  destruct (s !! k) as [e'|] eqn:He'.
  - destruct (ts >? timestamp e'); intros [= <-]; simpl; eauto.
  - intros [= <-]. done.
Qed.

Lemma handle_put_unfold self key value :
  handle_put self key value
  = (let ts := LamportClock.time (clock self) + 1 in
     let self' :=
       Build (node_id self) (port self) (peers self) (LamportClock.Clock ts)
             (put (store self) key value ts (node_id self)).1
             (delay_peer self) (delay_seconds self) in
     (self', PutResponse "ok" ts (node_id self),
      _replicate_to_peers self' key value ts)).
Proof.
  unfold handle_put, LamportClock.increment, set_clock, set_store. simpl.
  destruct (put (store self) key value _ (node_id self)) as [s' b].
  reflexivity.
Qed.

Lemma handle_replicate_unfold self key value (ts : Z) (source_node : N) :
  handle_replicate self key value ts source_node
  = (Build (node_id self) (port self) (peers self)
           (LamportClock.Clock (Z.max (LamportClock.time (clock self)) ts + 1))
           (put (store self) key value ts source_node).1
           (delay_peer self) (delay_seconds self),
     ReplicateResponse "ok" (put (store self) key value ts source_node).2).
Proof.
  unfold handle_replicate, LamportClock.update, set_clock, set_store. simpl.
  destruct (put (store self) key value ts source_node) as [s' b].
  reflexivity.
Qed.

Lemma initial_dominates self : initial self → clock_dominates self.
Proof. intros [_ Hs] k e. rewrite Hs. unfold KeyValueStore.init. by rewrite lookup_empty. Qed.

Lemma step_dominates self (e : event K V N) :
  clock_dominates self → clock_dominates (step self e).
Proof.
  intros Hinv. destruct e as [key value|key value ts source_node];
    unfold step, clock_dominates.
  - rewrite handle_put_unfold. simpl.
    apply put_bounded; [|lia]. intros k e He. apply Hinv in He. lia.
  - rewrite handle_replicate_unfold. simpl.
    apply put_bounded; [|lia]. intros k e He. apply Hinv in He. lia.
Qed.

Lemma run_dominates es self :
  clock_dominates self → clock_dominates (run self es).
Proof.
  revert self. induction es as [|e es IH]; intros self Hinv; [done|].
  unfold run in *. simpl. by apply IH, step_dominates.
Qed.

(** C10: after every sequence of [handle_put] and [handle_replicate]
    events processed one after the other from the starting state
    (clock 0, empty store), every stored entry has a timestamp less
    than or equal to the node's clock. *)
Theorem stored_timestamps_below_clock self es (k : K) (e : entry V N) :
  initial self →
  store (run self es) !! k = Some e →
  timestamp e ≤ LamportClock.time (clock (run self es)).
Proof.
  intros Hinit. by apply (run_dominates es self), initial_dominates.
Qed.

(** C5: in every state the node reaches from its starting state,
    [handle_put] returns [{status: 'ok', timestamp: ts, node: node_id}]
    with [ts] the value the clock increment returned, and the
    [store.put] it performs returns [True]: the new entry is in the
    store afterwards. *)
Theorem handle_put_always_accepted self es key value :
  initial self →
  let self1 := run self es in
  let ts := (LamportClock.increment (clock self1)).2 in
  (handle_put self1 key value).1.2 = PutResponse "ok" ts (node_id self1) ∧
  (put (store self1) key value ts (node_id self1)).2 = true ∧
  store (handle_put self1 key value).1.1
    = <[key := Entry value ts (node_id self1)]> (store self1).
Proof.
  intros Hinit self1 ts.
  assert (clock_dominates self1) as Hinv
    by by apply run_dominates, initial_dominates.
  rewrite handle_put_unfold. simpl.
  assert (put (store self1) key value ts (node_id self1)
          = (<[key := Entry value ts (node_id self1)]> (store self1), true))
    as Hput.
  { destruct (store self1 !! key) as [e|] eqn:He.
    - apply put_newer with e; [done|]. apply Hinv in He.
      subst ts. simpl. lia.
    - by apply put_absent. }
  subst ts. simpl in *. rewrite Hput. done.
Qed.

(** *** The delivery loop *)

Lemma attempts_all_fail (attempt_ok : nat → bool) (peer_url : string)
    (data : payload K V N) :
  (∀ a, (a < max_retries)%nat → attempt_ok a = false) →
  attempts attempt_ok peer_url data (seq 0 max_retries)
  = ([UrlOpen (peer_url +:+ "/replicate") data 5;
      Print (MsgFailed peer_url 1); Sleep 1;
      UrlOpen (peer_url +:+ "/replicate") data 5;
      Print (MsgFailed peer_url 2); Sleep 2;
      UrlOpen (peer_url +:+ "/replicate") data 5;
      Print (MsgFailed peer_url 3)], false).
Proof.
  intros Hfail. unfold max_retries in *. simpl.
  rewrite !Hfail by lia. reflexivity.
Qed.

(** C6, as the code has it: when every attempt fails,
    [_replicate_to_peer] makes exactly 3 attempts, waits 1 and then 2
    time units between them (nothing after the last), and ends by
    reporting that it gave up after 3 attempts.  The whole trace is
    fixed: after the artificial delay, if any, each of the first two
    requests is followed by its failure message and its wait, and the
    third by its failure message and the give-up message only. *)
Theorem replicate_to_peer_exhausts self (attempt_ok : nat → bool)
    (peer_url : string) key value (timestamp delay : Z) :
  (∀ a, (a < max_retries)%nat → attempt_ok a = false) →
  let tr := _replicate_to_peer self attempt_ok peer_url key value timestamp delay in
  let data := Payload key value timestamp (node_id self) in
  let request := UrlOpen (peer_url +:+ "/replicate") data 5 in
  tr = (if delay >? 0
        then [Print (MsgDelaying peer_url delay); Sleep delay] else [])
       ++ [request; Print (MsgFailed peer_url 1); Sleep 1;
           request; Print (MsgFailed peer_url 2); Sleep 2;
           request; Print (MsgFailed peer_url 3);
           Print (MsgGaveUp peer_url 3)] ∧
  requests tr = replicate 3 (peer_url +:+ "/replicate", data) ∧
  backoffs tr = [1; 2] ∧
  last tr = Some (Print (MsgGaveUp peer_url 3)).
Proof.
  intros Hfail tr data request. subst tr request. unfold _replicate_to_peer.
  rewrite (attempts_all_fail _ _ _ Hfail).
  destruct (delay >? 0); simpl; done.
Qed.

End node_properties.

(** ** POST /replicate *)

Section request_properties.
Import KeyValueStore Node RequestHandler.
Implicit Types (self : node) (items : list (string * json)).

Lemma dict_get_absent items (name : string) :
  ¬ present items name → dict_get items name = JNull.
Proof.
  unfold present, dict_get. destruct (dict_lookup name items); [|done].
  intros []. by eexists.
Qed.

(** The guard of the [/replicate] branch. *)
Lemma replicate_guard items :
  forallb id [truthy (dict_get items "key");
              is_not_None (dict_get items "value");
              truthy (dict_get items "timestamp");
              truthy (dict_get items "source_node")] = false
  ↔ truthy (dict_get items "key") = false
    ∨ dict_get items "value" = JNull
    ∨ truthy (dict_get items "timestamp") = false
    ∨ truthy (dict_get items "source_node") = false.
Proof.
  simpl. unfold id.
  assert (∀ j, is_not_None j = false ↔ j = JNull) as Hnone
    by (intros []; simpl; split; congruence).
  rewrite <- Hnone.
  destruct (truthy (dict_get items "key")),
           (is_not_None (dict_get items "value")),
           (truthy (dict_get items "timestamp")),
           (truthy (dict_get items "source_node")); simpl; tauto.
Qed.

Lemma do_POST_replicate_unfold self items :
  do_POST self "/replicate" (Json (JObj items))
  = if forallb id [truthy (dict_get items "key");
                   is_not_None (dict_get items "value");
                   truthy (dict_get items "timestamp");
                   truthy (dict_get items "source_node")]
    then
      match numeric (dict_get items "timestamp") with
      | None => (self, Raised "TypeError")
      | Some ts =>
          match hashable (dict_get items "key") with
          | Some k =>
              let '(self', result) :=
                handle_replicate self k (dict_get items "value") ts
                                 (dict_get items "source_node") in
              (self', Sent 200 (Result result))
          | None =>
              let '(clock', _) := LamportClock.update (clock self) ts in
              (set_clock self clock', Raised "TypeError")
          end
      end
    else (self, Sent 400 (Error "Missing required fields")).
Proof.
  unfold do_POST.
  change (String.eqb "/replicate" "/put") with false.
  change (String.eqb "/replicate" "/replicate") with true.
  cbv iota.
  destruct (forallb id _); reflexivity.
Qed.

(** C7, as the code has it: a POST /replicate with a JSON object as
    body is answered with 400 exactly when [key], [timestamp] or
    [source_node] is missing or false in Python's sense ([null],
    [false], [0], an empty string, list or object), or [value] is
    missing or [null]; a missing field therefore always gives 400.
    When the four fields pass that test, the key is hashable and the
    timestamp is an integer, the request reaches [handle_replicate] and
    is answered 200 with [{status: 'ok', applied: b}], [b] being what
    the store's [put] returned. *)
Theorem replicate_400_iff_missing_or_falsy self items :
  let key := dict_get items "key" in
  let value := dict_get items "value" in
  let timestamp := dict_get items "timestamp" in
  let source_node := dict_get items "source_node" in
  let answer := do_POST self "/replicate" (Json (JObj items)) in
  (status_of answer.2 = Some 400 ↔
     truthy key = false ∨ value = JNull ∨
     truthy timestamp = false ∨ truthy source_node = false) ∧
  (¬ present items "key" ∨ ¬ present items "value" ∨
   ¬ present items "timestamp" ∨ ¬ present items "source_node" →
     answer = (self, Sent 400 (Error "Missing required fields"))) ∧
  (∀ k ts,
     truthy key = true → value ≠ JNull →
     truthy timestamp = true → truthy source_node = true →
     hashable key = Some k → numeric timestamp = Some ts →
     answer
     = ((handle_replicate self k value ts source_node).1,
        Sent 200 (Result
          (ReplicateResponse "ok"
             (put (store self) k value ts source_node).2)))).
Proof.
  intros key value timestamp source_node answer.
  pose proof (replicate_guard items) as Hguard.
  fold key value timestamp source_node in Hguard.
  subst answer. rewrite do_POST_replicate_unfold.
  fold key value timestamp source_node.
  destruct (forallb id _) eqn:Hall.
  - assert (¬ (truthy key = false ∨ value = JNull ∨
               truthy timestamp = false ∨ truthy source_node = false))
      as Hok by (rewrite <- Hguard; congruence).
    split; [|split].
    + split; [|tauto]. intros Hst. exfalso.
      destruct (numeric timestamp) as [ts|]; [|done].
      destruct (hashable key) as [k|].
      * destruct (handle_replicate self k value ts source_node). done.
      * destruct (LamportClock.update (clock self) ts). done.
    + intros Hmissing. exfalso. apply Hok.
      destruct Hmissing as [Hm|[Hm|[Hm|Hm]]];
        apply dict_get_absent in Hm.
      * left. subst key. by rewrite Hm.
      * right; left. done.
      * right; right; left. subst timestamp. by rewrite Hm.
      * right; right; right. subst source_node. by rewrite Hm.
    + intros k ts _ _ _ _ -> ->.
      rewrite handle_replicate_unfold. reflexivity.
  - assert (truthy key = false ∨ value = JNull ∨
            truthy timestamp = false ∨ truthy source_node = false)
      as Hbad by (by apply Hguard).
    split; [|split].
    + done.
    + done.
    + intros k ts Hk Hv Ht Hs _ _. exfalso.
      destruct Hbad as [Hb|[Hb|[Hb|Hb]]]; congruence.
Qed.

(** The requests that fail half-way (an unhashable key) move the clock
    only, so the bound of the stored timestamps by the clock holds over
    every sequence of POST requests as well. *)
Lemma set_clock_dominates self (c : LamportClock.t) :
  LamportClock.time (clock self) ≤ LamportClock.time c →
  clock_dominates self → clock_dominates (set_clock self c).
Proof.
  intros Hle Hinv k e He. simpl in *. apply Hinv in He. lia.
Qed.

Lemma do_POST_dominates self (path : string) (body : request_body) :
  clock_dominates self → clock_dominates (do_POST self path body).1.
Proof.
  intros Hinv. unfold do_POST.
  repeat case_match; simpl; try done;
    match goal with
    | Hp : handle_put self ?k ?v = (?n, ?r, ?l) |- _ =>
        change n with (n, r, l).1.1; rewrite <- Hp;
        apply (step_dominates self (LocalWrite k v) Hinv)
    | Hp : handle_replicate self ?k ?v ?ts ?src = (?n, ?r) |- _ =>
        change n with (n, r).1; rewrite <- Hp;
        apply (step_dominates self (InboundReplication k v ts src) Hinv)
    | Hc : LamportClock.increment _ = _ |- _ =>
        injection Hc as <- _;
        apply set_clock_dominates; [simpl; lia|done]
    | Hc : LamportClock.update _ _ = _ |- _ =>
        injection Hc as <- _;
        apply set_clock_dominates; [simpl; lia|done]
    end.
Qed.

Lemma serve_dominates (requests : list (string * request_body)) self :
  clock_dominates self → clock_dominates (serve self requests).
Proof.
  revert self. induction requests as [|r rs IH]; intros self Hinv; [done|].
  unfold serve in *. simpl. by apply IH, do_POST_dominates.
Qed.

End request_properties.

(** ** Concrete runs *)

Section concrete.
Import KeyValueStore Node RequestHandler.

(** Two writes of one key with one timestamp: the store keeps the one
    that arrives first, so the two orders of delivery end differently.
    This refutes C1 as it is worded. *)
Lemma lww_tie_depends_on_order :
  ¬ (∀ ws1 ws2 : list (write string string string),
       NoDup ws1 → ws1 ≡ₚ ws2 →
       put_all KeyValueStore.init ws1 = put_all KeyValueStore.init ws2).
Proof.
  intros Hall.
  specialize (Hall [Write "x" "1" 1 "A"; Write "x" "2" 1 "B"]
                   [Write "x" "2" 1 "B"; Write "x" "1" 1 "A"]).
  assert (NoDup [Write "x" "1" 1 "A"; Write "x" "2" 1 "B"]) as Hnd.
  { apply NoDup_cons. split; [|apply NoDup_singleton].
    rewrite list_elem_of_singleton. discriminate. }
  specialize (Hall Hnd (perm_swap _ _ _)).
  apply (f_equal (λ s : gmap string (entry string string), s !! "x")) in Hall.
  vm_compute in Hall. discriminate.
Qed.

Example tie_keeps_first :
  put_all KeyValueStore.init [Write "x" "1" 1 "A"; Write "x" "2" 1 "B"] !! "x"
  = Some (Entry "1" 1 "A") ∧
  put_all KeyValueStore.init [Write "x" "2" 1 "B"; Write "x" "1" 1 "A"] !! "x"
  = Some (Entry "2" 1 "B").
Proof. split; vm_compute; reflexivity. Qed.

Lemma lww_permutation_invariant_witness :
  put_all KeyValueStore.init
    [Write "x" "1" 1 "A"; Write "x" "2" 2 "B"; Write "y" "3" 1 "B"]
  = put_all KeyValueStore.init
    [Write "x" "2" 2 "B"; Write "x" "1" 1 "A"; Write "y" "3" 1 "B"].
Proof.
  apply lww_permutation_invariant; [apply perm_swap|].
  intros w1 w2 H1 H2 Hk Ht.
  rewrite !elem_of_cons in H1, H2. rewrite elem_of_nil in H1, H2.
  destruct H1 as [->|[->|[->|[]]]], H2 as [->|[->|[->|[]]]];
    simpl in Hk, Ht; try reflexivity; discriminate.
Defined.

Lemma put_same_tuple_twice_witness :
  (put (∅ : gmap string (entry string string)) "x" "1" 1 "A").2 = true ∧
  put (put (∅ : gmap string (entry string string)) "x" "1" 1 "A").1 "x" "1" 1 "A"
  = ((put (∅ : gmap string (entry string string)) "x" "1" 1 "A").1, false).
Proof. apply put_same_tuple_twice. reflexivity. Defined.

Lemma get_after_applied_put_witness :
  get (put (∅ : gmap string (entry string string)) "x" "1" 1 "A").1 "x"
  = ((put (∅ : gmap string (entry string string)) "x" "1" 1 "A").1,
     Some (Entry "1" 1 "A")) ∧
  ∃ e, (get (put (∅ : gmap string (entry string string)) "x" "1" 1 "A").1 "x").2
       = Some e ∧ value e = "1" ∧ timestamp e = 1 ∧ KeyValueStore.node e = "A".
Proof. apply get_after_applied_put. reflexivity. Defined.

Example put_tie_rejected :
  put (<["x" := Entry "1" 5 "A"]> (∅ : gmap string (entry string string)))
      "x" "2" 5 "B"
  = (<["x" := Entry "1" 5 "A"]> ∅, false).
Proof. apply put_stale with (Entry "1" 5 "A"); [apply lookup_insert_eq|done]. Qed.

Lemma stored_timestamps_below_clock_witness :
  timestamp (Entry "2" 7 "B")
  ≤ LamportClock.time
      (clock (run (Node.init "A" 8000 ["http://b:8001"])
                  [LocalWrite "x" "1"; InboundReplication "x" "2" 7 "B"])).
Proof.
  apply (stored_timestamps_below_clock
           (Node.init "A" 8000 ["http://b:8001"])
           [LocalWrite "x" "1"; InboundReplication "x" "2" 7 "B"] "x").
  - split; reflexivity.
  - vm_compute. reflexivity.
Defined.

Lemma handle_put_always_accepted_witness :
  (handle_put
     (run (Node.init "A" 8000 ["http://b:8001"])
          [InboundReplication "x" "2" 7 "B"]) "x" "1").1.2
  = PutResponse "ok" 9 "A".
Proof.
  apply (handle_put_always_accepted
           (Node.init "A" 8000 ["http://b:8001"])
           [InboundReplication "x" "2" 7 "B"] "x" "1").
  split; reflexivity.
Defined.

(** With every attempt failing the loop waits 1 and 2, never 4: this
    refutes C6 as it is worded. *)
Lemma backoff_never_waits_four :
  backoffs (_replicate_to_peer (Node.init "A" 8000 ["http://b:8001"])
              (λ _, false) "http://b:8001" "x" "1" 1 0)
  ≠ [1; 2; 4].
Proof. vm_compute. discriminate. Qed.

Lemma replicate_to_peer_exhausts_witness :
  _replicate_to_peer (Node.init "A" 8000 ["http://b:8001"])
    (λ _, false) "http://b:8001" "x" "1" 1 5
  = (if 5 >? 0
     then [Print (MsgDelaying "http://b:8001" 5); Sleep 5] else [])
    ++ [UrlOpen ("http://b:8001" +:+ "/replicate") (Payload "x" "1" 1 "A") 5;
        Print (MsgFailed "http://b:8001" 1); Sleep 1;
        UrlOpen ("http://b:8001" +:+ "/replicate") (Payload "x" "1" 1 "A") 5;
        Print (MsgFailed "http://b:8001" 2); Sleep 2;
        UrlOpen ("http://b:8001" +:+ "/replicate") (Payload "x" "1" 1 "A") 5;
        Print (MsgFailed "http://b:8001" 3);
        Print (MsgGaveUp "http://b:8001" 3)] ∧
  requests (_replicate_to_peer (Node.init "A" 8000 ["http://b:8001"])
              (λ _, false) "http://b:8001" "x" "1" 1 5)
  = replicate 3 ("http://b:8001" +:+ "/replicate", Payload "x" "1" 1 "A") ∧
  backoffs (_replicate_to_peer (Node.init "A" 8000 ["http://b:8001"])
              (λ _, false) "http://b:8001" "x" "1" 1 5)
  = [1; 2] ∧
  last (_replicate_to_peer (Node.init "A" 8000 ["http://b:8001"])
              (λ _, false) "http://b:8001" "x" "1" 1 5)
  = Some (Print (MsgGaveUp "http://b:8001" 3)).
Proof.
  apply (replicate_to_peer_exhausts
           (Node.init "A" 8000 ["http://b:8001"]) (λ _, false)
           "http://b:8001" "x" "1" 1 5).
  reflexivity.
Defined.

Example second_attempt_succeeds :
  _replicate_to_peer (Node.init "A" 8000 ["http://b:8001"])
    (λ a, bool_decide (a = 1%nat)) "http://b:8001" "x" "1" 1 0
  = [UrlOpen "http://b:8001/replicate" (Payload "x" "1" 1 "A") 5;
     Print (MsgFailed "http://b:8001" 1); Sleep 1;
     UrlOpen "http://b:8001/replicate" (Payload "x" "1" 1 "A") 5;
     Print (MsgReplicated "http://b:8001")].
Proof. reflexivity. Qed.

(** All four fields are in the body and the answer is 400 all the
    same, the timestamp being 0: this refutes C7 as it is worded. *)
Lemma replicate_zero_timestamp_is_400 :
  (present [("key", JStr "x"); ("value", JInt 1);
            ("timestamp", JInt 0); ("source_node", JStr "A")] "key" ∧
   present [("key", JStr "x"); ("value", JInt 1);
            ("timestamp", JInt 0); ("source_node", JStr "A")] "value" ∧
   present [("key", JStr "x"); ("value", JInt 1);
            ("timestamp", JInt 0); ("source_node", JStr "A")] "timestamp" ∧
   present [("key", JStr "x"); ("value", JInt 1);
            ("timestamp", JInt 0); ("source_node", JStr "A")] "source_node") ∧
  do_POST (Node.init (JStr "B") 8001 []) "/replicate"
    (Json (JObj [("key", JStr "x"); ("value", JInt 1);
                 ("timestamp", JInt 0); ("source_node", JStr "A")]))
  = (Node.init (JStr "B") 8001 [],
     Sent 400 (Error "Missing required fields")).
Proof.
  split; [|reflexivity].
  repeat split; vm_compute; by eexists.
Qed.

(** A timestamp that is not a number passes the guard and then makes
    [clock.update] raise. *)
Example replicate_text_timestamp_raises :
  do_POST (Node.init (JStr "B") 8001 []) "/replicate"
    (Json (JObj [("key", JStr "x"); ("value", JInt 1);
                 ("timestamp", JStr "7"); ("source_node", JStr "A")]))
  = (Node.init (JStr "B") 8001 [], Raised "TypeError").
Proof. reflexivity. Qed.

Example replicate_accepted :
  (do_POST (Node.init (JStr "B") 8001 []) "/replicate"
     (Json (JObj [("key", JStr "x"); ("value", JInt 1);
                  ("timestamp", JInt 7); ("source_node", JStr "A")]))).2
  = Sent 200 (Result (ReplicateResponse "ok" true)).
Proof. vm_compute. reflexivity. Qed.

Lemma replicate_400_iff_missing_or_falsy_witness :
  do_POST (Node.init (JStr "B") 8001 []) "/replicate"
    (Json (JObj [("key", JStr "x"); ("value", JInt 1);
                 ("timestamp", JInt 7); ("source_node", JStr "A")]))
  = ((handle_replicate (Node.init (JStr "B") 8001 [])
        (KStr "x") (JInt 1) 7 (JStr "A")).1,
     Sent 200 (Result (ReplicateResponse "ok" true))).
Proof.
  pose proof (replicate_400_iff_missing_or_falsy
                (Node.init (JStr "B") 8001 [])
                [("key", JStr "x"); ("value", JInt 1);
                 ("timestamp", JInt 7); ("source_node", JStr "A")])
    as (_ & _ & Hreach).
  apply (Hreach (KStr "x") 7); reflexivity || discriminate.
Defined.

(** A body that is not UTF-8 raises on a path nobody serves, too. *)
Example unreadable_body_raises :
  do_POST (Node.init (JStr "B") 8001 []) "/nowhere" (Unreadable "UnicodeDecodeError")
  = (Node.init (JStr "B") 8001 [], Raised "UnicodeDecodeError").
Proof. reflexivity. Qed.

Example put_creates_entry :
  run_ops (∅ : gmap string (entry string string))
          [OpGet "x"; OpPut "x" "1" 1 "A"; OpPut "x" "0" 0 "B"; OpGetAll]
  = <["x" := Entry "1" 1 "A"]> ∅.
Proof. vm_compute. reflexivity. Qed.

Example replicate_no_body :
  do_POST (Node.init (JStr "B") 8001 []) "/replicate" NoBody
  = (Node.init (JStr "B") 8001 [], Sent 400 (Error "Missing required fields")).
Proof. reflexivity. Qed.

End concrete.


(** * Further properties *)

(** ** The clock over a sequence of calls *)

Section clock_more.
Import LamportClock.

Lemma run_calls_cons_state (c : t) (op : call) (cs : list call) :
  (run_calls c (op :: cs)).1 = (run_calls (run_call c op).1 cs).1.
Proof.
  simpl. destruct (run_call c op) as [c' r]. simpl.
  destruct (run_calls c' cs) as [c'' rs]. reflexivity.
Qed.

Lemma run_calls_time_lower (cs : list call) (c : t) :
  time c + Z.of_nat (length cs) ≤ time (run_calls c cs).1.
Proof.
  revert c. induction cs as [|op cs IH]; intros c; [simpl; lia|].
  rewrite run_calls_cons_state.
  specialize (IH (run_call c op).1).
  destruct (run_call_time c op) as [Ht Hlt].
  rewrite length_cons, Nat2Z.inj_succ. lia.
Qed.

Lemma run_calls_last (cs : list call) (c : t) (r : Z) :
  last (run_calls c cs).2 = Some r → time (run_calls c cs).1 = r.
Proof.
  revert c. induction cs as [|op cs IH]; intros c; [done|].
  rewrite run_calls_cons, run_calls_cons_state.
  destruct (run_call_time c op) as [Ht Hlt].
  destruct cs as [|op' cs].
  - simpl. intros [= <-]. done.
  - rewrite run_calls_cons. rewrite last_cons_cons.
    rewrite <- run_calls_cons. apply IH.
Qed.

(** X1: every call moves the clock forward by at least one, and what
    [get_time] reads after a sequence of calls is the value the last
    call returned; [get_time] itself leaves the clock alone. *)
Theorem clock_time_after_calls (c : t) (cs : list call) :
  time c + Z.of_nat (length cs) ≤ time (run_calls c cs).1 ∧
  (∀ r, last (run_calls c cs).2 = Some r →
        get_time (run_calls c cs).1 = ((run_calls c cs).1, r)).
Proof.
  split; [apply run_calls_time_lower|].
  intros r Hr. unfold get_time. by rewrite (run_calls_last _ _ _ Hr).
Qed.

(** X2: [n] calls of [increment] and nothing else return the [n]
    values that follow the starting time, one by one. *)
Theorem increments_count (n : nat) (c : t) :
  run_calls c (replicate n Increment)
  = (Clock (time c + Z.of_nat n),
     map (λ i, time c + Z.of_nat i) (seq 1 n)).
Proof.
  revert c. induction n as [|n IH]; intros c.
  - simpl. destruct c as [now]. simpl. f_equal. f_equal. lia.
  - change (replicate (S n) Increment) with (Increment :: replicate n Increment).
    cbn [run_calls run_call increment]. rewrite IH. cbn [time].
    f_equal; [f_equal; lia|].
    cbn [seq map]. f_equal; try lia.
    rewrite <- (seq_shift n 1), map_map.
    apply map_ext. intros i. lia.
Qed.

End clock_more.

(** ** The store over sequences of writes *)

Section store_more.
Import KeyValueStore.
Context {K : Type} `{Countable K} {V N : Type}.
Implicit Types (s : gmap K (entry V N)) (k : K) (w : write K V N).
Implicit Types (ws : list (write K V N)).

Lemma put_all_snoc s ws w :
  put_all s (ws ++ [w]) = (put_write (put_all s ws) w).1.
Proof. unfold put_all. by rewrite foldl_app. Qed.

(** What [merge] returns is the new entry or the held one, and no older
    than either. *)
Lemma merge_spec (held : option (entry V N)) (new : entry V N) :
  ∃ e', merge held new = Some e' ∧
        timestamp new ≤ timestamp e' ∧
        (∀ e, held = Some e → timestamp e ≤ timestamp e') ∧
        (e' = new ∨ held = Some e').
Proof.
  destruct held as [e|]; simpl.
  - destruct (Z.gtb_spec (timestamp new) (timestamp e)).
    + exists new. repeat split; [lia| |by left]. intros e0 [= <-]. lia.
    + exists e. repeat split; [lia| |by right]. intros e0 [= <-]. lia.
  - exists new. repeat split; [lia|done|by left].
Qed.

Lemma put_write_monotone s w k (e : entry V N) :
  s !! k = Some e →
  ∃ e', (put_write s w).1 !! k = Some e' ∧ timestamp e ≤ timestamp e'.
Proof.
  intros He. rewrite put_write_lookup. case_decide; [|exists e; split; [done|lia]].
  destruct (merge_spec (s !! k) (entry_of w)) as (e' & -> & _ & Hheld & _).
  exists e'. split; [done|]. by apply Hheld.
Qed.

Lemma run_op_monotone s (o : op K V N) k (e : entry V N) :
  s !! k = Some e →
  ∃ e', (run_op s o).1 !! k = Some e' ∧ timestamp e ≤ timestamp e'.
Proof.
  intros He. destruct o as [key v t n|key|]; simpl;
    [|exists e; split; [done|lia]..].
  pose proof (put_write_monotone s (Write key v t n) k e He) as Hm.
  unfold put_write in Hm. simpl in Hm.
  destruct (put s key v t n) as [s' b]. exact Hm.
Qed.

(** X3: along every sequence of [put], [get] and [get_all] a key that
    is stored stays stored and its timestamp never goes down. *)
Theorem stored_timestamp_never_decreases (os : list (op K V N)) s k
    (e : entry V N) :
  s !! k = Some e →
  ∃ e', run_ops s os !! k = Some e' ∧ timestamp e ≤ timestamp e'.
Proof.
  revert s e. induction os as [|o os IH]; intros s e He.
  - exists e. split; [done|lia].
  - destruct (run_op_monotone s o k e He) as (e1 & He1 & Hle1).
    destruct (IH _ _ He1) as (e2 & He2 & Hle2).
    exists e2. split; [exact He2|lia].
Qed.

(** X4: what the store holds for a key after a list of writes applied
    to an empty store: nothing when no write has that key; otherwise the
    entry of one of the writes with that key, and no write with that key
    has a greater timestamp. *)
Theorem put_all_keeps_newest ws k :
  match put_all init ws !! k with
  | Some e =>
      (∃ w, w ∈ ws ∧ w_key w = k ∧ entry_of w = e) ∧
      (∀ w, w ∈ ws → w_key w = k → w_timestamp w ≤ timestamp e)
  | None => ∀ w, w ∈ ws → w_key w ≠ k
  end.
Proof.
  induction ws as [|w ws IH] using rev_ind.
  - unfold put_all, init. simpl. rewrite lookup_empty.
    intros w Hw. by apply elem_of_nil in Hw.
  - rewrite put_all_snoc, put_write_lookup. case_decide as Hk.
    + destruct (merge_spec (put_all init ws !! k) (entry_of w))
        as (e' & -> & Hnew & Hheld & Hwhich).
      destruct (put_all init ws !! k) as [e|] eqn:He.
      * destruct IH as [(w0 & Hw0 & Hk0 & He0) Hmax]. split.
        -- destruct Hwhich as [->|[= ->]].
           ++ exists w. rewrite elem_of_app, list_elem_of_singleton. auto.
           ++ exists w0. rewrite elem_of_app. auto.
        -- intros w' Hw' Hk'. apply elem_of_app in Hw' as [Hw'|Hw'].
           ++ specialize (Hmax w' Hw' Hk'). specialize (Hheld e eq_refl). lia.
           ++ apply list_elem_of_singleton in Hw' as ->. exact Hnew.
      * destruct Hwhich as [->|Hwhich]; [|done]. split.
        -- exists w. rewrite elem_of_app, list_elem_of_singleton. auto.
        -- intros w' Hw' Hk'. apply elem_of_app in Hw' as [Hw'|Hw'].
           ++ by apply IH in Hw'.
           ++ apply list_elem_of_singleton in Hw' as ->. simpl. lia.
    + destruct (put_all init ws !! k) as [e|] eqn:He.
      * destruct IH as [(w0 & Hw0 & Hk0 & He0) Hmax]. split.
        -- exists w0. rewrite elem_of_app. auto.
        -- intros w' Hw' Hk'. apply elem_of_app in Hw' as [Hw'|Hw'].
           ++ by apply Hmax.
           ++ apply list_elem_of_singleton in Hw' as ->. done.
      * intros w' Hw'. apply elem_of_app in Hw' as [Hw'|Hw'].
        -- by apply IH.
        -- apply list_elem_of_singleton in Hw' as ->. done.
Qed.

(** X5: two lists that hold the same writes, in whatever order and
    however often each, end in the same store when no two different
    writes tie on key and timestamp: delivering a write again, as a
    retry does, changes nothing. *)
Theorem same_writes_same_store ws1 ws2 :
  (∀ w, w ∈ ws1 ↔ w ∈ ws2) → tie_free ws1 →
  put_all init ws1 = put_all init ws2.
Proof.
  intros Hsame Htf. apply map_eq. intros k.
  pose proof (put_all_keeps_newest ws1 k) as H1.
  pose proof (put_all_keeps_newest ws2 k) as H2.
  destruct (put_all init ws1 !! k) as [e1|], (put_all init ws2 !! k) as [e2|].
  - destruct H1 as [(w1 & Hw1 & Hk1 & He1) Hmax1].
    destruct H2 as [(w2 & Hw2 & Hk2 & He2) Hmax2].
    assert (w_timestamp w1 = w_timestamp w2) as Ht.
    { apply Hsame in Hw1 as Hw1'. apply Hsame in Hw2 as Hw2'.
      specialize (Hmax1 w2 Hw2' Hk2). specialize (Hmax2 w1 Hw1' Hk1).
      subst e1 e2. simpl in *. lia. }
    assert (w1 = w2) as Heq
      by (apply Htf; [done|by apply Hsame|congruence|done]).
    rewrite <- He1, <- He2, Heq. done.
  - destruct H1 as [(w1 & Hw1 & Hk1 & _) _].
    apply Hsame in Hw1. by apply H2 in Hw1.
  - destruct H2 as [(w2 & Hw2 & Hk2 & _) _].
    apply Hsame in Hw2. by apply H1 in Hw2.
  - done.
Qed.

Lemma put_all_covers ws s w :
  w ∈ ws →
  ∃ e, put_all s ws !! w_key w = Some e ∧ w_timestamp w ≤ timestamp e.
Proof.
  induction ws as [|w' ws IH] using rev_ind; intros Hw.
  - by apply elem_of_nil in Hw.
  - rewrite put_all_snoc. apply elem_of_app in Hw as [Hw|Hw].
    + destruct (IH Hw) as (e & He & Hle).
      destruct (put_write_monotone _ w' _ _ He) as (e' & He' & Hle').
      exists e'. split; [done|lia].
    + apply list_elem_of_singleton in Hw as ->.
      rewrite put_write_lookup. rewrite decide_True by done.
      destruct (merge_spec (put_all s ws !! w_key w') (entry_of w'))
        as (e' & -> & Hnew & _ & _).
      exists e'. split; [done|exact Hnew].
Qed.

(** X6: a write that is among those already applied is rejected when
    it is delivered again, and the store stays as it is, whatever the
    store held at the start. *)
Theorem redelivery_rejected ws s w :
  w ∈ ws → put_write (put_all s ws) w = (put_all s ws, false).
Proof.
  intros Hw. destruct (put_all_covers ws s w Hw) as (e & He & Hle).
  unfold put_write. by apply put_stale with e.
Qed.

End store_more.

(** ** The node over a history of events *)

Section node_more.
Import KeyValueStore Node.
Context {K : Type} `{Countable K} {V N : Type}.
Implicit Types (self : Node.t K V N) (key k : K) (value v : V).
Implicit Types (es : list (event K V N)).

Lemma run_snoc self es (e : event K V N) :
  run self (es ++ [e]) = step (run self es) e.
Proof. unfold run. by rewrite foldl_app. Qed.

Lemma step_unfold self (e : event K V N) :
  step self e
  = match e with
    | LocalWrite key value =>
        let ts := LamportClock.time (clock self) + 1 in
        Build (node_id self) (port self) (peers self) (LamportClock.Clock ts)
              (put (store self) key value ts (node_id self)).1
              (delay_peer self) (delay_seconds self)
    | InboundReplication key value ts source_node =>
        Build (node_id self) (port self) (peers self)
              (LamportClock.Clock (Z.max (LamportClock.time (clock self)) ts + 1))
              (put (store self) key value ts source_node).1
              (delay_peer self) (delay_seconds self)
    end.
Proof.
  destruct e; unfold step.
  - by rewrite handle_put_unfold.
  - by rewrite handle_replicate_unfold.
Qed.

Lemma step_clock self (e : event K V N) :
  LamportClock.time (clock self) + 1 ≤ LamportClock.time (clock (step self e)).
Proof. rewrite step_unfold. destruct e; simpl; lia. Qed.

Lemma run_clock_lower es self :
  LamportClock.time (clock self) + Z.of_nat (length es)
  ≤ LamportClock.time (clock (run self es)).
Proof.
  induction es as [|e es IH] using rev_ind; [simpl; lia|].
  rewrite run_snoc, length_app. simpl.
  pose proof (step_clock (run self es) e). lia.
Qed.

Lemma step_config self (e : event K V N) :
  node_id (step self e) = node_id self ∧ port (step self e) = port self ∧
  peers (step self e) = peers self ∧
  delay_peer (step self e) = delay_peer self ∧
  delay_seconds (step self e) = delay_seconds self.
Proof. rewrite step_unfold. by destruct e. Qed.

(** X7: every event a node handles moves its clock forward by at least
    one, and no event changes the node's identity, port, peer list or
    delay settings. *)
Theorem events_advance_clock_keep_config self es :
  LamportClock.time (clock self) + Z.of_nat (length es)
    ≤ LamportClock.time (clock (run self es)) ∧
  node_id (run self es) = node_id self ∧ port (run self es) = port self ∧
  peers (run self es) = peers self ∧
  delay_peer (run self es) = delay_peer self ∧
  delay_seconds (run self es) = delay_seconds self.
Proof.
  split; [apply run_clock_lower|].
  induction es as [|e es IH] using rev_ind; [done|].
  rewrite run_snoc.
  destruct (step_config (run self es) e) as (-> & -> & -> & -> & ->).
  exact IH.
Qed.

Lemma handle_get_unfold self k :
  handle_get self k
  = (self,
     match store self !! k with
     | Some d => GetResponse "ok" k (KeyValueStore.value d)
                             (KeyValueStore.timestamp d) (KeyValueStore.node d)
     | None => NotFoundResponse "not_found" k
     end).
Proof.
  destruct self. unfold handle_get, get, set_store. simpl.
  by destruct (_ !! k).
Qed.

Lemma handle_put_store self key value :
  clock_dominates self →
  store (handle_put self key value).1.1
  = <[key := Entry value (LamportClock.time (clock self) + 1) (node_id self)]>
      (store self).
Proof.
  intros Hinv. rewrite handle_put_unfold. simpl.
  destruct (store self !! key) as [e|] eqn:He.
  - rewrite (put_newer _ _ _ _ _ e He); [done|]. apply Hinv in He. lia.
  - by rewrite (put_absent _ _ _ _ _ He).
Qed.

(** X8: read your writes.  In every state reached from the starting
    state, a [handle_get] right after [handle_put key value] finds the
    key and returns that value with the timestamp [handle_put] reported
    and the node's own id; [handle_get] changes nothing. *)
Theorem read_your_writes self es key value :
  initial self →
  let self1 := run self es in
  let self2 := (handle_put self1 key value).1.1 in
  (handle_put self1 key value).1.2
    = PutResponse "ok" (LamportClock.time (clock self1) + 1) (node_id self1) ∧
  handle_get self2 key
    = (self2, GetResponse "ok" key value
                (LamportClock.time (clock self1) + 1) (node_id self1)).
Proof.
  intros Hinit self1 self2.
  assert (clock_dominates self1) as Hinv
    by by apply run_dominates, initial_dominates.
  split; [by rewrite handle_put_unfold|].
  rewrite handle_get_unfold. subst self2.
  rewrite (handle_put_store _ _ _ Hinv), lookup_insert_eq. done.
Qed.

Lemma step_store_dom self (e : event K V N) :
  dom (store (step self e)) = {[event_key e]} ∪ dom (store self).
Proof. rewrite step_unfold. destruct e; simpl; apply put_dom. Qed.

Lemma run_store_absent es self k :
  store (run self es) !! k = None
  ↔ store self !! k = None ∧ ∀ e, e ∈ es → event_key e ≠ k.
Proof.
  induction es as [|e es IH] using rev_ind.
  - simpl. split; [|by intros []]. intros Hk. split; [done|].
    intros e He. by apply elem_of_nil in He.
  - rewrite run_snoc, <- !not_elem_of_dom, step_store_dom.
    rewrite not_elem_of_union, not_elem_of_singleton.
    rewrite !not_elem_of_dom, IH. split.
    + intros (Hne & Hs & Hes). split; [done|]. intros e' He'.
      apply elem_of_app in He' as [He'|He']; [by apply Hes|].
      apply list_elem_of_singleton in He' as ->. done.
    + intros (Hs & Hes). split; [|split; [done|]].
      * intros Heq. apply (Hes e); [|done].
        rewrite elem_of_app, list_elem_of_singleton. auto.
      * intros e' He'. apply Hes. rewrite elem_of_app. auto.
Qed.

(** X9: on a node that started empty, [handle_get] answers
    [not_found] for a key exactly when no event so far, local write or
    replication, carried that key. *)
Theorem not_found_iff_never_written self es k :
  initial self →
  (handle_get (run self es) k).2 = NotFoundResponse "not_found" k
  ↔ ∀ e, e ∈ es → event_key e ≠ k.
Proof.
  intros [_ Hs]. rewrite handle_get_unfold. simpl.
  pose proof (run_store_absent es self k) as Habs.
  rewrite Hs in Habs. unfold KeyValueStore.init in Habs.
  rewrite lookup_empty in Habs.
  destruct (store (run self es) !! k) as [d|].
  - split; [done|]. intros Hes.
    assert (Some d = None) as Hd by (by apply Habs). done.
  - split; [|done]. intros _. by apply Habs.
Qed.

Lemma run_clock_above_received es self k v (ts : Z) (src : N) :
  InboundReplication k v ts src ∈ es →
  ts < LamportClock.time (clock (run self es)).
Proof.
  induction es as [|e es IH] using rev_ind; intros He.
  - by apply elem_of_nil in He.
  - rewrite run_snoc. apply elem_of_app in He as [He|He].
    + specialize (IH He). pose proof (step_clock (run self es) e). lia.
    + apply list_elem_of_singleton in He as <-.
      rewrite step_unfold. simpl. lia.
Qed.

(** X10: Lamport's receive rule at work.  Once a node has handled a
    replication with timestamp [ts], every local write it makes later
    gets a timestamp strictly greater than [ts]. *)
Theorem local_write_after_replication_is_newer self es k v (ts : Z) (src : N)
    key value :
  InboundReplication k v ts src ∈ es →
  ∃ t', (handle_put (run self es) key value).1.2
        = PutResponse "ok" t' (node_id self) ∧ ts < t'.
Proof.
  intros He. rewrite handle_put_unfold. simpl.
  destruct (events_advance_clock_keep_config self es) as (_ & -> & _).
  eexists. split; [reflexivity|].
  pose proof (run_clock_above_received es self k v ts src He). lia.
Qed.

(** X11: [handle_replicate] always sets the clock to one more than the
    greater of its old time and the received timestamp, also when the
    write is rejected; a write that is not newer than what is stored is
    answered [applied: false] and leaves the store as it is. *)
Theorem replication_always_ticks self k v (ts : Z) (src : N) :
  LamportClock.time (clock (handle_replicate self k v ts src).1)
    = Z.max (LamportClock.time (clock self)) ts + 1 ∧
  (∀ e, store self !! k = Some e → ts ≤ timestamp e →
        (handle_replicate self k v ts src).2 = ReplicateResponse "ok" false ∧
        store (handle_replicate self k v ts src).1 = store self).
Proof.
  rewrite handle_replicate_unfold. simpl. split; [done|].
  intros e He Hle. by rewrite (put_stale _ _ _ _ _ e He Hle).
Qed.

End node_more.

(** ** Fan-out and the delivery loop *)

Section dispatch_more.
Import KeyValueStore Node.
Context {K : Type} `{Countable K} {V N : Type}.
Implicit Types (self : Node.t K V N) (key : K) (value : V).

(** X12: [handle_put] starts one delivery per configured peer, in the
    order of the peer list; each carries the key, the value and the
    timestamp returned to the caller; the delay is [delay_seconds] for
    the peer named by a non-empty [delay_peer] and 0 for every other. *)
Theorem local_write_fans_out self key value :
  map d_peer_url (handle_put self key value).2 = peers self ∧
  (∀ d, d ∈ (handle_put self key value).2 →
     d_key d = key ∧ d_value d = value ∧
     d_timestamp d = LamportClock.time (clock self) + 1 ∧
     d_delay d
     = if bool_decide (delay_peer self = Some (d_peer_url d) ∧ d_peer_url d ≠ "")
       then delay_seconds self else 0).
Proof.
  rewrite handle_put_unfold. simpl. unfold _replicate_to_peers. simpl. split.
  - rewrite map_map. simpl. apply map_id.
  - intros d Hd. apply list_elem_of_In, in_map_iff in Hd as (peer_url & <- & _).
    simpl. repeat split.
    destruct (delay_peer self) as [p|];
      [|by rewrite bool_decide_false by (by intros [? _])].
    destruct (String.eqb_spec p ""), (String.eqb_spec peer_url p); simpl; subst.
    + by rewrite bool_decide_false by (by intros [_ ?]).
    + rewrite bool_decide_false; [done|]. intros [[= ?] _]. congruence.
    + by rewrite bool_decide_true.
    + rewrite bool_decide_false; [done|]. intros [[= ?] _]. congruence.
Qed.

(** The four ways the loop of three attempts can go. *)
Lemma attempts_outcomes (attempt_ok : nat → bool) (peer_url : string)
    (data : payload K V N) :
  let request := UrlOpen (peer_url +:+ "/replicate") data 5 in
  (attempt_ok 0%nat = true ∧
   attempts attempt_ok peer_url data (seq 0 max_retries)
   = ([request; Print (MsgReplicated peer_url)], true)) ∨
  (attempt_ok 0%nat = false ∧ attempt_ok 1%nat = true ∧
   attempts attempt_ok peer_url data (seq 0 max_retries)
   = ([request; Print (MsgFailed peer_url 1); Sleep 1;
       request; Print (MsgReplicated peer_url)], true)) ∨
  (attempt_ok 0%nat = false ∧ attempt_ok 1%nat = false ∧
   attempt_ok 2%nat = true ∧
   attempts attempt_ok peer_url data (seq 0 max_retries)
   = ([request; Print (MsgFailed peer_url 1); Sleep 1;
       request; Print (MsgFailed peer_url 2); Sleep 2;
       request; Print (MsgReplicated peer_url)], true)) ∨
  (attempt_ok 0%nat = false ∧ attempt_ok 1%nat = false ∧
   attempt_ok 2%nat = false ∧
   attempts attempt_ok peer_url data (seq 0 max_retries)
   = ([request; Print (MsgFailed peer_url 1); Sleep 1;
       request; Print (MsgFailed peer_url 2); Sleep 2;
       request; Print (MsgFailed peer_url 3)], false)).
Proof.
  intros request. unfold max_retries. simpl.
  destruct (attempt_ok 0%nat); [by left|]. right.
  destruct (attempt_ok 1%nat); [by left|]. right.
  destruct (attempt_ok 2%nat); [by left|]. by right.
Qed.

(** X13: whatever the network does, one delivery sends at least one and
    at most three requests, all to [peer_url/replicate] with the same
    payload signed with the sender's id; the only waits are the
    artificial delay (when positive) followed by the backoffs, which add
    up to 3 at most; it ends with the give-up message exactly when all
    three attempts failed, and with the success message exactly when
    one of them succeeded. *)
Theorem replicate_to_peer_bounds self (attempt_ok : nat → bool)
    (peer_url : string) key value (timestamp delay : Z) :
  let tr := _replicate_to_peer self attempt_ok peer_url key value timestamp delay in
  let data := Payload key value timestamp (node_id self) in
  (1 ≤ length (requests tr) ≤ 3)%nat ∧
  (∀ r, r ∈ requests tr → r = (peer_url +:+ "/replicate", data)) ∧
  sleeps tr = (if delay >? 0 then [delay] else []) ++ backoffs tr ∧
  0 ≤ total (backoffs tr) ≤ 3 ∧
  (last tr = Some (Print (MsgGaveUp peer_url 3))
   ↔ ∀ a, (a < 3)%nat → attempt_ok a = false) ∧
  (last tr = Some (Print (MsgReplicated peer_url))
   ↔ ∃ a, (a < 3)%nat ∧ attempt_ok a = true).
Proof.
  intros tr data. subst tr. unfold _replicate_to_peer. fold data.
  destruct (attempts_outcomes attempt_ok peer_url data)
    as [(H0 & ->)|[(H0 & H1 & ->)|[(H0 & H1 & H2 & ->)|(H0 & H1 & H2 & ->)]]];
    destruct (delay >? 0); cbn;
    (split; [lia|]);
    (split; [intros r Hr;
             repeat (apply elem_of_cons in Hr as [Hr|Hr]; [exact Hr|]);
             by apply elem_of_nil in Hr|]);
    (split; [reflexivity|]); (split; [lia|]).
  1-2: split;
       [split; [done|intros Hall; rewrite Hall in H0 by lia; done]
       |split; [intros _; exists 0%nat; split; [lia|done]|done]].
  1-2: split;
       [split; [done|intros Hall; rewrite Hall in H1 by lia; done]
       |split; [intros _; exists 1%nat; split; [lia|done]|done]].
  1-2: split;
       [split; [done|intros Hall; rewrite Hall in H2 by lia; done]
       |split; [intros _; exists 2%nat; split; [lia|done]|done]].
  1-2: split;
       [split; [intros _ [|[|[|a]]] Ha; (done || lia)|done]
       |split; [done|intros ([|[|[|a]]] & Ha & Hok); (congruence || lia)]].
Qed.


End dispatch_more.

(** ** The HTTP handlers *)

Section http_more.
Import KeyValueStore Node RequestHandler.
Implicit Types (self : node) (items : list (string * json)).

Lemma do_POST_put_unfold self items :
  do_POST self "/put" (Json (JObj items))
  = if negb (truthy (dict_get items "key"))
       || negb (is_not_None (dict_get items "value"))
    then (self, Sent 400 (Error "Missing key or value"))
    else
      match hashable (dict_get items "key") with
      | Some k =>
          ((handle_put self k (dict_get items "value")).1.1,
           Sent 200 (Result (PutResponse "ok"
                               (LamportClock.time (clock self) + 1)
                               (node_id self))))
      | None =>
          (set_clock self (LamportClock.Clock (LamportClock.time (clock self) + 1)),
           Raised "TypeError")
      end.
Proof.
  unfold do_POST. change (String.eqb "/put" "/put") with true. cbv iota.
  destruct (negb _ || negb _); [done|].
  destruct (hashable _) as [k|]; [|done].
  by rewrite handle_put_unfold.
Qed.

(** X15: a POST /put with a JSON object as body is answered 400
    exactly when [key] is missing or false in Python's sense, or [value]
    is missing or [null]; an empty string, [0] or [false] as value is
    accepted.  Past the guard, a hashable key gives 200 with
    [{status: 'ok', timestamp: clock + 1, node: node_id}]; a list or an
    object as key makes the handler raise after the clock has moved. *)
Theorem post_put_guard self items :
  let key := dict_get items "key" in
  let value := dict_get items "value" in
  let answer := do_POST self "/put" (Json (JObj items)) in
  (status_of answer.2 = Some 400 ↔ truthy key = false ∨ value = JNull) ∧
  (∀ k, truthy key = true → value ≠ JNull → hashable key = Some k →
     answer
     = ((handle_put self k value).1.1,
        Sent 200 (Result (PutResponse "ok"
                            (LamportClock.time (clock self) + 1)
                            (node_id self))))) ∧
  (truthy key = true → value ≠ JNull → hashable key = None →
     answer
     = (set_clock self (LamportClock.Clock (LamportClock.time (clock self) + 1)),
        Raised "TypeError")).
Proof.
  intros key value answer. subst answer. rewrite do_POST_put_unfold.
  fold key value.
  assert (is_not_None value = false ↔ value = JNull) as Hnone
    by (destruct value; simpl; split; congruence).
  destruct (truthy key) eqn:Hk; simpl.
  - destruct (is_not_None value) eqn:Hv; simpl.
    + assert (value ≠ JNull) as Hnn by (intros Hn; apply Hnone in Hn; congruence).
      split; [|split].
      * split; [|intros [?|?]; congruence].
        by destruct (hashable key).
      * by intros k _ _ ->.
      * by intros _ _ ->.
    + assert (value = JNull) as Hn by by apply Hnone.
      split; [|split]; [split; auto|intros; congruence..].
  - split; [|split]; [split; auto|intros; congruence..].
Qed.

Lemma handle_status_unfold self :
  handle_status self
  = (self, StatusReport (node_id self) (LamportClock.time (clock self))
                        (store self) (peers self)).
Proof. by destruct self. Qed.

(** What a POST leaves of the node: everything but clock and store, and
    the clock never goes back. *)
Lemma do_POST_frame self (path : string) (body : request_body) :
  node_id (do_POST self path body).1 = node_id self ∧
  peers (do_POST self path body).1 = peers self ∧
  LamportClock.time (clock self)
    ≤ LamportClock.time (clock (do_POST self path body).1).
Proof.
  unfold do_POST.
  repeat case_match; simpl; try (repeat split; (done || lia));
    match goal with
    | Hp : handle_put self ?k ?v = (?n, ?r, ?l) |- _ =>
        change n with (n, r, l).1.1; rewrite <- Hp;
        rewrite handle_put_unfold; simpl; repeat split; (done || lia)
    | Hp : handle_replicate self ?k ?v ?ts ?src = (?n, ?r) |- _ =>
        change n with (n, r).1; rewrite <- Hp;
        rewrite handle_replicate_unfold; simpl; repeat split; (done || lia)
    | Hc : LamportClock.increment _ = _ |- _ =>
        injection Hc as <- _; simpl; repeat split; (done || lia)
    | Hc : LamportClock.update _ _ = _ |- _ =>
        injection Hc as <- _; simpl; repeat split; (done || lia)
    end.
Qed.

Lemma serve_frame (requests : list (string * request_body)) self :
  node_id (serve self requests) = node_id self ∧
  peers (serve self requests) = peers self ∧
  LamportClock.time (clock self)
    ≤ LamportClock.time (clock (serve self requests)).
Proof.
  revert self. induction requests as [|r rs IH]; intros self.
  - simpl. repeat split; (done || lia).
  - unfold serve in *. simpl.
    destruct (IH (do_POST self r.1 r.2).1) as (-> & -> & Hle).
    destruct (do_POST_frame self r.1 r.2) as (-> & -> & Hle').
    repeat split; (done || lia).
Qed.

(** X16: a POST that is not answered 200 adds or changes no stored
    entry; one answered 400 or 404 leaves the whole node as it was.  A
    body that cannot be read (a [Content-Length] that is not a number,
    bytes that are not UTF-8) makes the handler raise on every path,
    with no response and the node untouched.  A body that is read but
    is not JSON is answered 400 on every path, and with an empty or a
    JSON body any other path than [/put] and [/replicate] is answered
    404. *)
Theorem failed_post_changes_no_entry self (path : string) (body : request_body) :
  let answer := do_POST self path body in
  (status_of answer.2 ≠ Some 200 → store answer.1 = store self) ∧
  (status_of answer.2 = Some 400 ∨ status_of answer.2 = Some 404 →
     answer.1 = self) ∧
  (∀ exception, body = Unreadable exception →
     answer = (self, Raised exception)) ∧
  (body = InvalidJson → answer = (self, Sent 400 (Error "Invalid JSON"))) ∧
  (body = NoBody ∨ (∃ data, body = Json data) →
   path ≠ "/put" → path ≠ "/replicate" →
     answer = (self, Sent 404 (Error "Not found"))).
Proof.
  intros answer. subst answer. split; [|split; [|split; [|split]]].
  - unfold do_POST. repeat case_match; simpl; try done;
      match goal with
      | Hc : LamportClock.increment _ = _ |- _ => by injection Hc as <- _
      | Hc : LamportClock.update _ _ = _ |- _ => by injection Hc as <- _
      end.
  - unfold do_POST. repeat case_match; simpl; try done;
      intros [?|?]; done.
  - by intros exception ->.
  - by intros ->.
  - intros Hb Hput Hrep. unfold do_POST.
    apply String.eqb_neq in Hput, Hrep. rewrite Hput, Hrep.
    by destruct Hb as [->|[data ->]].
Qed.

(** X17: a GET never changes the node.  [/get] is answered 400 exactly
    when there is no [key] parameter or its first value is empty;
    [/status] is always answered 200; every other path is answered
    404. *)
Theorem get_requests_read_only self (path : string)
    (params : gmap string (list string)) :
  let answer := do_GET self path params in
  answer.1 = self ∧
  (path = "/get" →
     (get_status_of answer.2 = Some 400
      ↔ params !! "key" = None ∨ ∃ rest, params !! "key" = Some ("" :: rest))) ∧
  (path = "/status" → get_status_of answer.2 = Some 200) ∧
  (path ≠ "/get" → path ≠ "/status" →
     answer.2 = GetSent 404 (GetError "Not found")).
Proof.
  intros answer. subst answer. unfold do_GET. split; [|split; [|split]].
  - destruct (String.eqb path "/get").
    + destruct (params !! "key") as [[|key rest]|]; simpl; try done.
      destruct (String.eqb key ""); [done|].
      by rewrite handle_get_unfold.
    + destruct (String.eqb path "/status"); [|done].
      by rewrite handle_status_unfold.
  - intros ->. change (String.eqb "/get" "/get") with true. cbv iota.
    destruct (params !! "key") as [[|key rest]|]; simpl.
    + split; [done|]. intros [?|[rest ?]]; done.
    + destruct (String.eqb_spec key "") as [->|Hne]; simpl.
      * split; [|done]. intros _. right. by exists rest.
      * rewrite handle_get_unfold. simpl. split; [done|].
        intros [?|[rest' [= ? ?]]]; done.
    + split; [|done]. intros _. by left.
  - intros ->. change (String.eqb "/status" "/get") with false.
    change (String.eqb "/status" "/status") with true. cbv iota.
    by rewrite handle_status_unfold.
  - intros Hget Hstatus.
    apply String.eqb_neq in Hget, Hstatus. by rewrite Hget, Hstatus.
Qed.

End http_more.

(** ** From one request to the next, from one node to the next *)

Section end_to_end.
Import KeyValueStore Node RequestHandler.
Implicit Types (self : node) (items : list (string * json)).
Implicit Types (requests : list (string * request_body)).

Lemma serve_clock_nonneg self requests :
  initial self → 0 ≤ LamportClock.time (clock (serve self requests)).
Proof.
  intros [Hc _]. destruct (serve_frame requests self) as (_ & _ & Hle).
  rewrite Hc in Hle. simpl in Hle. lia.
Qed.


(** X19: the status snapshot.  On a node that has served any sequence
    of POST requests since it started, GET /status reports the node's
    id and peers as configured, the store as it is, and a Lamport time
    that no timestamp in the reported store exceeds. *)
Theorem status_snapshot_consistent self requests
    (params : gmap string (list string)) :
  initial self →
  let self1 := serve self requests in
  ∃ r, do_GET self1 "/status" params = (self1, GetSent 200 (StatusResult r)) ∧
       r_node_id r = node_id self ∧ r_peers r = peers self ∧
       r_store r = store self1 ∧
       r_lamport_time r = LamportClock.time (clock self1) ∧
       ∀ k e, r_store r !! k = Some e → timestamp e ≤ r_lamport_time r.
Proof.
  intros Hinit self1.
  assert (clock_dominates self1) as Hinv
    by by apply serve_dominates, initial_dominates.
  destruct (serve_frame requests self) as (Hid & Hpeers & _).
  fold self1 in Hid, Hpeers.
  eexists. unfold do_GET.
  change (String.eqb "/status" "/get") with false.
  change (String.eqb "/status" "/status") with true. cbv iota.
  rewrite handle_status_unfold. split; [reflexivity|]. simpl.
  repeat split; done.
Qed.

Lemma hashable_key_json (k : pykey) : hashable (key_json k) = Some k.
Proof. by destruct k. Qed.

Lemma truthy_key_json (j : json) (k : pykey) :
  truthy j = true → hashable j = Some k → truthy (key_json k) = true.
Proof. destruct j as [|[]| | | |]; simpl; intros Ht [= <-]; done. Qed.

Lemma handle_put_delivery_fields self (k : pykey) (value : json)
    (d : delivery pykey json) :
  d ∈ (handle_put self k value).2 →
  d_key d = k ∧ d_value d = value ∧
  d_timestamp d = LamportClock.time (clock self) + 1.
Proof.
  rewrite handle_put_unfold. simpl. unfold _replicate_to_peers.
  intros Hd. apply list_elem_of_In, in_map_iff in Hd as (peer_url & <- & _).
  done.
Qed.

Lemma delivery_body_unfold (sender receiver : node) (k : pykey) (value : json)
    (ts : Z) (d : delivery pykey json) :
  d_key d = k → d_value d = value → d_timestamp d = ts →
  ts ≠ 0 → truthy (key_json k) = true → value ≠ JNull →
  do_POST receiver "/replicate" (Json (delivery_body sender d))
  = if truthy (node_id sender)
    then ((handle_replicate receiver k value ts (node_id sender)).1,
          Sent 200 (Result (ReplicateResponse "ok"
                      (put (store receiver) k value ts (node_id sender)).2)))
    else (receiver, Sent 400 (Error "Missing required fields")).
Proof.
  intros <- <- <- Hts Hk Hv. unfold delivery_body, payload_json.
  rewrite do_POST_replicate_unfold. cbn -[handle_replicate put].
  rewrite Hk. apply Z.eqb_neq in Hts. rewrite Hts.
  assert (is_not_None (d_value d) = true) as -> by by destruct (d_value d).
  simpl. destruct (truthy (node_id sender)); [|done].
  rewrite hashable_key_json, handle_replicate_unfold. done.
Qed.

(** X20: what a sender posts passes its peer's guard.  For a write a
    node accepted through POST /put (a truthy, hashable key and a value
    other than [null]), the body each delivery thread sends, arriving
    at the [/replicate] path of any peer, is answered
    with 200 and [{status: 'ok', applied: b}], [b] being what
    the peer's [put] returned, provided the sender's id is truthy; a
    sender whose id is the empty string has every delivery answered
    400, so none of its writes ever reaches a peer's store. *)
Theorem delivery_passes_peer_guard (sender0 receiver : node) requests
    (key value : json) (k : pykey) (d : delivery pykey json) :
  initial sender0 →
  truthy key = true → hashable key = Some k → value ≠ JNull →
  let sender := serve sender0 requests in
  let ts := LamportClock.time (clock sender) + 1 in
  d ∈ (handle_put sender k value).2 →
  let answer := do_POST receiver "/replicate" (Json (delivery_body sender d)) in
  (truthy (node_id sender0) = true →
     answer
     = ((handle_replicate receiver k value ts (node_id sender0)).1,
        Sent 200 (Result (ReplicateResponse "ok"
                    (put (store receiver) k value ts (node_id sender0)).2)))) ∧
  (truthy (node_id sender0) = false →
     answer = (receiver, Sent 400 (Error "Missing required fields"))).
Proof.
  intros Hinit Hkey Hhash Hvalue sender ts Hd answer. subst answer.
  destruct (handle_put_delivery_fields _ _ _ _ Hd) as (Hdk & Hdv & Hdt).
  pose proof (serve_clock_nonneg sender0 requests Hinit) as Hnn.
  destruct (serve_frame requests sender0) as (Hid & _ & _).
  fold sender in Hnn, Hid.
  rewrite (delivery_body_unfold sender receiver k value ts d Hdk Hdv Hdt);
    [|subst ts; lia|by eapply truthy_key_json|done].
  rewrite Hid. split; intros ->; done.
Qed.

(** X21: basic replication.  When a peer that holds nothing at or
    above the write's timestamp for a string key receives the delivery
    of a sender with a truthy id, its next GET /get of that key returns
    the sender's value, the sender's timestamp and the sender's id. *)
Theorem replicated_write_is_readable (sender0 receiver : node) requests
    (name : string) (value : json) (d : delivery pykey json)
    (rest : list string) (params : gmap string (list string)) :
  initial sender0 → truthy (node_id sender0) = true →
  name ≠ "" → value ≠ JNull →
  params !! "key" = Some (name :: rest) →
  let sender := serve sender0 requests in
  let ts := LamportClock.time (clock sender) + 1 in
  d ∈ (handle_put sender (KStr name) value).2 →
  (∀ e, store receiver !! KStr name = Some e → timestamp e < ts) →
  let receiver1 :=
    (do_POST receiver "/replicate" (Json (delivery_body sender d))).1 in
  do_GET receiver1 "/get" params
  = (receiver1,
     GetSent 200 (GetResult
       (GetResponse "ok" (KStr name) value ts (node_id sender0)))).
Proof.
  intros Hinit Hid0 Hname Hvalue Hparams sender ts Hd Hold receiver1.
  destruct (handle_put_delivery_fields _ _ _ _ Hd) as (Hdk & Hdv & Hdt).
  pose proof (serve_clock_nonneg sender0 requests Hinit) as Hnn.
  destruct (serve_frame requests sender0) as (Hid & _ & _).
  fold sender in Hnn, Hid.
  apply String.eqb_neq in Hname.
  subst receiver1.
  rewrite (delivery_body_unfold sender receiver (KStr name) value ts d
             Hdk Hdv Hdt);
    [|subst ts; lia|by simpl; rewrite Hname|done].
  rewrite Hid, Hid0. simpl.
  unfold do_GET. change (String.eqb "/get" "/get") with true. cbv iota.
  rewrite Hparams. simpl. rewrite Hname.
  rewrite handle_get_unfold, handle_replicate_unfold. simpl.
  assert (put (store receiver) (KStr name) value ts (node_id sender0)
          = (<[KStr name := Entry value ts (node_id sender0)]> (store receiver),
             true)) as ->.
  { destruct (store receiver !! KStr name) as [e|] eqn:He.
    - apply put_newer with e; [done|]. by apply Hold.
    - by apply put_absent. }
  simpl. by rewrite lookup_insert_eq.
Qed.

End end_to_end.

(** ** Concrete runs of the further properties *)

Section concrete_more.
Import KeyValueStore Node RequestHandler.

Lemma stored_timestamp_never_decreases_witness :
  ∃ e', run_ops (<["x" := Entry "1" 5 "A"]> (∅ : gmap string (entry string string)))
                [OpPut "x" "2" 3 "B"; OpGet "x"; OpPut "x" "3" 9 "C"; OpGetAll]
          !! "x" = Some e' ∧ 5 ≤ timestamp e'.
Proof.
  apply (stored_timestamp_never_decreases
           [OpPut "x" "2" 3 "B"; OpGet "x"; OpPut "x" "3" 9 "C"; OpGetAll]
           (<["x" := Entry "1" 5 "A"]> ∅) "x" (Entry "1" 5 "A")).
  apply lookup_insert_eq.
Defined.

Lemma same_writes_same_store_witness :
  put_all KeyValueStore.init
    [Write "x" "1" 1 "A"; Write "x" "2" 2 "B"]
  = put_all KeyValueStore.init
    [Write "x" "2" 2 "B"; Write "x" "1" 1 "A"; Write "x" "2" 2 "B"].
Proof.
  apply same_writes_same_store.
  - intros w. rewrite !elem_of_cons, !elem_of_nil. tauto.
  - intros w1 w2 H1 H2 Hk Ht.
    rewrite !elem_of_cons in H1, H2. rewrite elem_of_nil in H1, H2.
    destruct H1 as [->|[->|[]]], H2 as [->|[->|[]]];
      simpl in Hk, Ht; try reflexivity; discriminate.
Defined.

Lemma redelivery_rejected_witness :
  put_write (put_all (∅ : gmap string (entry string string))
               [Write "x" "1" 1 "A"; Write "x" "2" 2 "B"])
            (Write "x" "1" 1 "A")
  = (put_all ∅ [Write "x" "1" 1 "A"; Write "x" "2" 2 "B"], false).
Proof. apply redelivery_rejected. apply list_elem_of_here. Defined.

Lemma read_your_writes_witness :
  (handle_put (run (Node.init "A" 8000 ["http://b:8001"])
                   [InboundReplication "x" "2" 7 "B"]) "x" "1").1.2
    = PutResponse "ok" 9 "A" ∧
  handle_get
    (handle_put (run (Node.init "A" 8000 ["http://b:8001"])
                     [InboundReplication "x" "2" 7 "B"]) "x" "1").1.1 "x"
  = ((handle_put (run (Node.init "A" 8000 ["http://b:8001"])
                      [InboundReplication "x" "2" 7 "B"]) "x" "1").1.1,
     GetResponse "ok" "x" "1" 9 "A").
Proof.
  apply (read_your_writes (Node.init "A" 8000 ["http://b:8001"])
           [InboundReplication "x" "2" 7 "B"] "x" "1").
  split; reflexivity.
Defined.

Lemma not_found_iff_never_written_witness :
  (handle_get (run (Node.init "A" 8000 [])
                   [LocalWrite "x" "1"; InboundReplication "y" "2" 7 "B"]) "z").2
    = NotFoundResponse "not_found" "z"
  ↔ ∀ e, e ∈ [LocalWrite "x" "1"; InboundReplication "y" "2" 7 "B"] →
         event_key e ≠ "z".
Proof.
  apply (not_found_iff_never_written (Node.init "A" 8000 [])).
  split; reflexivity.
Defined.

Lemma local_write_after_replication_is_newer_witness :
  ∃ t', (handle_put (run (Node.init "A" 8000 [])
                         [InboundReplication "x" "2" 7 "B"; LocalWrite "y" "3"])
                    "x" "1").1.2
        = PutResponse "ok" t' "A" ∧ 7 < t'.
Proof.
  apply (local_write_after_replication_is_newer (Node.init "A" 8000 [])
           [InboundReplication "x" "2" 7 "B"; LocalWrite "y" "3"]
           "x" "2" 7 "B" "x" "1").
  apply list_elem_of_here.
Defined.



Lemma status_snapshot_consistent_witness :
  ∃ r, do_GET (serve (Node.init (JStr "A") 8000 ["http://b:8001"])
                 [("/put", Json (JObj [("key", JStr "x"); ("value", JInt 1)]))])
              "/status" ∅
       = (serve (Node.init (JStr "A") 8000 ["http://b:8001"])
            [("/put", Json (JObj [("key", JStr "x"); ("value", JInt 1)]))],
          GetSent 200 (StatusResult r)) ∧
       r_node_id r = JStr "A" ∧ r_peers r = ["http://b:8001"] ∧
       r_store r
       = store (serve (Node.init (JStr "A") 8000 ["http://b:8001"])
                  [("/put", Json (JObj [("key", JStr "x"); ("value", JInt 1)]))]) ∧
       r_lamport_time r
       = LamportClock.time
           (clock (serve (Node.init (JStr "A") 8000 ["http://b:8001"])
                     [("/put", Json (JObj [("key", JStr "x"); ("value", JInt 1)]))])) ∧
       ∀ k e, r_store r !! k = Some e → timestamp e ≤ r_lamport_time r.
Proof.
  apply (status_snapshot_consistent
           (Node.init (JStr "A") 8000 ["http://b:8001"])
           [("/put", Json (JObj [("key", JStr "x"); ("value", JInt 1)]))] ∅).
  split; reflexivity.
Defined.

Lemma delivery_passes_peer_guard_witness :
  (do_POST (Node.init (JStr "B") 8001 []) "/replicate"
     (Json (delivery_body (serve (Node.init (JStr "A") 8000 ["http://b:8001"]) [])
              (Delivery "http://b:8001" (KStr "x") (JInt 1) 1 0)))).2
  = Sent 200 (Result (ReplicateResponse "ok" true)).
Proof.
  pose proof (delivery_passes_peer_guard
                (Node.init (JStr "A") 8000 ["http://b:8001"])
                (Node.init (JStr "B") 8001 []) []
                (JStr "x") (JInt 1) (KStr "x")
                (Delivery "http://b:8001" (KStr "x") (JInt 1) 1 0)) as Hthm.
  destruct Hthm as [Hok _].
  - split; reflexivity.
  - reflexivity.
  - reflexivity.
  - discriminate.
  - apply list_elem_of_here.
  - rewrite Hok; reflexivity.
Defined.

Lemma replicated_write_is_readable_witness :
  do_GET (do_POST (Node.init (JStr "B") 8001 []) "/replicate"
            (Json (delivery_body
                     (serve (Node.init (JStr "A") 8000 ["http://b:8001"]) [])
                     (Delivery "http://b:8001" (KStr "x") (JInt 1) 1 0)))).1
         "/get" {["key" := ["x"]]}
  = ((do_POST (Node.init (JStr "B") 8001 []) "/replicate"
        (Json (delivery_body
                 (serve (Node.init (JStr "A") 8000 ["http://b:8001"]) [])
                 (Delivery "http://b:8001" (KStr "x") (JInt 1) 1 0)))).1,
     GetSent 200 (GetResult (GetResponse "ok" (KStr "x") (JInt 1) 1 (JStr "A")))).
Proof.
  apply (replicated_write_is_readable
           (Node.init (JStr "A") 8000 ["http://b:8001"])
           (Node.init (JStr "B") 8001 []) [] "x" (JInt 1)
           (Delivery "http://b:8001" (KStr "x") (JInt 1) 1 0) []
           {["key" := ["x"]]}).
  - split; reflexivity.
  - reflexivity.
  - discriminate.
  - discriminate.
  - apply lookup_singleton_eq.
  - apply list_elem_of_here.
  - intros e He. vm_compute in He. discriminate.
Defined.

(** An empty id ([--id ""]) makes every peer answer 400. *)
Example empty_id_never_replicates :
  do_POST (Node.init (JStr "B") 8001 []) "/replicate"
    (Json (delivery_body (Node.init (JStr "") 8000 ["http://b:8001"])
             (Delivery "http://b:8001" (KStr "x") (JInt 1) 1 0)))
  = (Node.init (JStr "B") 8001 [], Sent 400 (Error "Missing required fields")).
Proof. reflexivity. Qed.

(** A key that is a number is stored, and no GET can name it: the key
    of a query is always a string. *)
Example numeric_key_stored :
  (do_POST (Node.init (JStr "A") 8000 []) "/put"
     (Json (JObj [("key", JInt 5); ("value", JInt 1)]))).2
  = Sent 200 (Result (PutResponse "ok" 1 (JStr "A"))).
Proof. vm_compute. reflexivity. Qed.

End concrete_more.
